(** * API gateway: rate limiter, circuit-breaker proxy and GraphQL routing

    A shallow embedding of the admission-control and dispatch code of the
    gateway:

    - [api-gateway/src/config/rateLimitRules.js]   (rule table and lookup),
    - [api-gateway/src/middleware/rateLimiter.js]  (sliding-window limiter on
      Redis sorted sets, [resetRateLimit], [getRateLimitStatus]),
    - [api-gateway/src/config/circuitBreaker.js]   (breaker options,
      [createCircuitBreaker], [createFallbackResponse]),
    - [api-gateway/src/middleware/circuitBreaker.js] (the breaker registry),
    - [api-gateway/src/middleware/circuitBreakerProxy.js]
      ([createCircuitBreakerProxy] and its hooks),
    - [api-gateway/src/middleware/auth.js]         ([authenticateToken]),
    - [api-gateway/src/config/redis.js]            ([retryStrategy]),
    - [api-gateway/src/utils/logger.js]            (log levels),
    - [api-gateway/src/index.js]                   (the [/graphql] route, the
      server's [upgrade] handler, the breaker endpoints, the error handler,
      [forwardUserHeaders], the notification path rewrite).

    Asynchronous code is modelled sequentially: one middleware invocation
    runs to completion against the store before the next one starts.
    Numbers are integers ([Date.now()] values, counts, the constants of the
    rule table), so [Math.ceil(x / 1000)] is integer arithmetic.  The value
    of [Date.now()] is an argument of each operation and is also the time at
    which the store executes the commands of that operation.  Objects the
    program builds inherit from [Object.prototype]; its members are named,
    not modelled ([JHost]). *)

From stdpp Require Import gmap strings list pretty.
From Stdlib Require Import ZArith Lia Ascii.

Set Warnings "-register-all,-clear-no-such-hyp".

Open Scope string_scope.
Open Scope Z_scope.

(** ** JavaScript values

    The values the modelled code builds and inspects: the rule table is a
    nested object literal, response bodies are object literals.  [JIso ms]
    stands for the string [new Date(ms).toISOString()] and [JNaN] for the
    number [NaN].  [JHost p] names a built-in of the host: the value found
    by reading the property names [p], one after the other, starting at
    [Object.prototype] ([JHost ["toString"]] is [Object.prototype.toString]). *)

Inductive jsval : Type :=
| JUndefined
| JBool (b : bool)
| JNum (n : Z)
| JNaN
| JStr (s : string)
| JIso (ms : Z)
| JObj (props : list (string * jsval))
| JHost (path : list string).

(** JavaScript truthiness, as used by [!x], [x && y] and [x || y].  The
    members of [Object.prototype] are functions and objects, so a built-in
    reached in one step is truthy.  A built-in reached in more steps may
    also be missing, falsy, or throw when read: there [true] is the case in
    which it is present, and the code that depends on the answer asks the
    host ([host_prop], see [lookup]). *)
Definition truthy (v : jsval) : bool :=
  match v with
  | JUndefined => false
  | JBool b => b
  | JNum n => negb (Z.eqb n 0)
  | JNaN => false
  | JStr s => negb (String.eqb s "")
  | JIso _ => true
  | JObj _ => true
  | JHost _ => true
  end.

Fixpoint assoc {A : Type} (k : string) (l : list (string * A)) : option A :=
  match l with
  | [] => None
  | (k', v) :: l' => if String.eqb k k' then Some v else assoc k l'
  end.

(** The property names every object inherits from [Object.prototype]. *)
Definition object_prototype_keys : list string :=
  ["constructor"; "__proto__"; "hasOwnProperty"; "isPrototypeOf";
   "propertyIsEnumerable"; "toLocaleString"; "toString"; "valueOf";
   "__defineGetter__"; "__defineSetter__"; "__lookupGetter__";
   "__lookupSetter__"].

Definition inherited (key : string) : bool :=
  existsb (String.eqb key) object_prototype_keys.

(** The property names the program gives to its own objects and reads from
    a looked-up value; no built-in of the host has a property of such a
    name. *)
Definition program_keys : list string :=
  ["default"; "windowMs"; "maxRequests"; "message"].

(** [o[k]].  On an object literal: the own property, else the member of
    [Object.prototype] of that name, else [undefined].  On a built-in: the
    built-in one step further, [undefined] for the program's names.  On a
    number or a string the names the program reads are [undefined]. *)
Definition get_prop (o : jsval) (k : string) : jsval :=
  match o with
  | JObj props =>
      match assoc k props with
      | Some v => v
      | None => if inherited k then JHost [k] else JUndefined
      end
  | JHost p =>
      if existsb (String.eqb k) program_keys then JUndefined
      else JHost (p ++ [k])
  | _ => JUndefined
  end.

(** ** The rule table ([rateLimitRules.js]) *)

Record RateLimitRule : Type := mkRule {
  windowMs : Z;
  maxRequests : Z;
  message : string
}.

Definition rule_obj (r : RateLimitRule) : jsval :=
  JObj [("windowMs", JNum (windowMs r));
        ("maxRequests", JNum (maxRequests r));
        ("message", JStr (message r))].

Definition rule_default : RateLimitRule :=
  mkRule (15 * 60 * 1000) 100 "Quá nhiều requests. Vui lòng thử lại sau.".
Definition rule_auth_login : RateLimitRule :=
  mkRule (15 * 60 * 1000) 5
    "Quá nhiều lần đăng nhập thất bại. Vui lòng thử lại sau 15 phút.".
Definition rule_auth_register : RateLimitRule :=
  mkRule (60 * 60 * 1000) 3 "Quá nhiều lần đăng ký. Vui lòng thử lại sau 1 giờ.".
Definition rule_auth_refresh : RateLimitRule :=
  mkRule (5 * 60 * 1000) 10 "Quá nhiều lần refresh token. Vui lòng thử lại sau.".
Definition rule_auth_default : RateLimitRule :=
  mkRule (15 * 60 * 1000) 20
    "Quá nhiều requests đến auth service. Vui lòng thử lại sau.".
Definition rule_posts_create : RateLimitRule :=
  mkRule (60 * 60 * 1000) 10
    "Bạn đã tạo quá nhiều bài viết. Vui lòng thử lại sau 1 giờ.".
Definition rule_posts_list : RateLimitRule :=
  mkRule (1 * 60 * 1000) 30 "Quá nhiều requests. Vui lòng thử lại sau.".
Definition rule_posts_default : RateLimitRule :=
  mkRule (15 * 60 * 1000) 50
    "Quá nhiều requests đến post service. Vui lòng thử lại sau.".
Definition rule_comments_create : RateLimitRule :=
  mkRule (15 * 60 * 1000) 30 "Bạn đã comment quá nhiều. Vui lòng thử lại sau.".
Definition rule_comments_default : RateLimitRule :=
  mkRule (15 * 60 * 1000) 60
    "Quá nhiều requests đến comment service. Vui lòng thử lại sau.".
Definition rule_media_upload : RateLimitRule :=
  mkRule (60 * 60 * 1000) 20
    "Bạn đã upload quá nhiều file. Vui lòng thử lại sau 1 giờ.".
Definition rule_media_default : RateLimitRule :=
  mkRule (15 * 60 * 1000) 100
    "Quá nhiều requests đến media service. Vui lòng thử lại sau.".

Definition rateLimitRules : jsval :=
  JObj [
    ("default", rule_obj rule_default);
    ("auth", JObj [
       ("login", rule_obj rule_auth_login);
       ("register", rule_obj rule_auth_register);
       ("refresh", rule_obj rule_auth_refresh);
       ("default", rule_obj rule_auth_default)]);
    ("posts", JObj [
       ("create", rule_obj rule_posts_create);
       ("list", rule_obj rule_posts_list);
       ("default", rule_obj rule_posts_default)]);
    ("comments", JObj [
       ("create", rule_obj rule_comments_create);
       ("default", rule_obj rule_comments_default)]);
    ("media", JObj [
       ("upload", rule_obj rule_media_upload);
       ("default", rule_obj rule_media_default)])
  ].

(** [s.split(sep)] for a one-character separator. *)
Fixpoint split (sep : Ascii.ascii) (s : string) : list string :=
  match s with
  | EmptyString => [EmptyString]
  | String c s' =>
      if Ascii.eqb c sep then EmptyString :: split sep s'
      else match split sep s' with
           | p :: ps => String c p :: ps
           | [] => [String c EmptyString]
           end
  end.

(** [path.split("/").filter(Boolean)]: the non-empty segments. *)
Definition path_parts (path : string) : list string :=
  List.filter (fun p => negb (String.eqb p "")) (split "/"%char path).

(** [getRateLimitRule(path)].  The result is whatever value is found at the
    inspected position: a rule of the table, a field of the global default
    rule, or, where a segment of the path names a member of
    [Object.prototype], a built-in of the host.  Where the service segment
    names such a member and the action segment a property of it, the
    result [JHost [service; action]] is the outcome if the host has a truthy
    value there; [lookup] below covers what the host may answer. *)
Definition getRateLimitRule (path : string) : jsval :=
  let parts := path_parts path in
  if (length parts <? 2)%nat then get_prop rateLimitRules "default"
  else
    let service := default "" (parts !! 1%nat) in
    let action := parts !! 2%nat in
    if negb (truthy (get_prop rateLimitRules service))
    then get_prop rateLimitRules "default"
    else
      let serviceRules := get_prop rateLimitRules service in
      let specific :=
        match action with
        | Some a => get_prop serviceRules a
        | None => JUndefined
        end in
      if truthy specific then specific
      else if truthy (get_prop serviceRules "default")
           then get_prop serviceRules "default"
           else get_prop rateLimitRules "default".

(** Destructuring [{ windowMs, maxRequests, message } = rule] yields the
    three fields of a rule exactly when the looked-up value is an object
    carrying them; from a number, a string or a built-in all three read
    [undefined]. *)
Definition as_rule (v : jsval) : option RateLimitRule :=
  match get_prop v "windowMs", get_prop v "maxRequests", get_prop v "message" with
  | JNum w, JNum m, JStr msg => Some (mkRule w m msg)
  | _, _, _ => None
  end.

Definition rule_for (path : string) : option RateLimitRule :=
  as_rule (getRateLimitRule path).

(** ** The Redis store

    One sorted set per key: members (request nonces) mapped to their score,
    and the absolute time in milliseconds at which the key expires, if a
    time to live was set.  Every command executes at a server time [t]; a
    key whose deadline has passed reads as absent.  A sorted set that
    becomes empty deletes its key, as Redis does. *)

Record entry : Type := mkEntry {
  zs : gmap string Z;
  expireAt : option Z
}.

Abbreviation Store := (gmap string entry).

Definition live (t : Z) (e : entry) : bool :=
  match expireAt e with
  | Some d => bool_decide (t < d)
  | None => true
  end.

Definition read (t : Z) (st : Store) (key : string) : option entry :=
  match st !! key with
  | Some e => if live t e then Some e else None
  | None => None
  end.

Definition zset_at (t : Z) (st : Store) (key : string) : gmap string Z :=
  match read t st key with
  | Some e => zs e
  | None => ∅
  end.

Definition ttl_at (t : Z) (st : Store) (key : string) : option Z :=
  match read t st key with
  | Some e => expireAt e
  | None => None
  end.

(** Replace the members of [key], keeping the deadline of a live key. *)
Definition write (t : Z) (st : Store) (key : string) (z : gmap string Z) : Store :=
  if decide (z = ∅) then delete key st
  else <[key := mkEntry z (ttl_at t st key)]> st.

(** [ZREMRANGEBYSCORE key lo hi]: drop the members scored in [[lo, hi]];
    replies with the number removed. *)
Definition in_range (lo hi : Z) (s : Z) : bool := (lo <=? s) && (s <=? hi).

Definition ZREMRANGEBYSCORE (t : Z) (key : string) (lo hi : Z) (st : Store)
  : Z * Store :=
  let z := zset_at t st key in
  let keep := filter (fun ms => in_range lo hi ms.2 = false) z in
  (Z.of_nat (size z) - Z.of_nat (size keep), write t st key keep).

(** [ZCARD key]. *)
Definition ZCARD (t : Z) (key : string) (st : Store) : Z * Store :=
  (Z.of_nat (size (zset_at t st key)), st).

(** [ZADD key score member]: replies 1 for a new member, 0 for a member
    whose score was updated. *)
Definition ZADD (t : Z) (key : string) (score : Z) (member : string) (st : Store)
  : Z * Store :=
  let z := zset_at t st key in
  (match z !! member with Some _ => 0 | None => 1 end,
   write t st key (<[member := score]> z)).

(** [EXPIRE key seconds]: a time to live that is not positive deletes the
    key at once. *)
Definition EXPIRE (t : Z) (key : string) (seconds : Z) (st : Store) : Z * Store :=
  match read t st key with
  | Some e =>
      (1, if seconds <=? 0 then delete key st
          else <[key := mkEntry (zs e) (Some (t + seconds * 1000))]> st)
  | None => (0, st)
  end.

(** Sorted-set order: by score, ties by member. *)
Definition zless (a b : string * Z) : bool :=
  (a.2 <? b.2) || ((a.2 =? b.2)%Z && String.ltb a.1 b.1).

Definition zmin (l : list (string * Z)) : option (string * Z) :=
  foldr (fun x acc =>
           match acc with
           | None => Some x
           | Some y => if zless x y then Some x else Some y
           end) None l.

(** [ZRANGE key 0 0 WITHSCORES]: the lowest-ranked member and its score, or
    nothing (an empty reply) for an absent key. *)
Definition ZRANGE_0_0 (t : Z) (key : string) (st : Store)
  : option (string * Z) * Store :=
  (zmin (map_to_list (zset_at t st key)), st).

(** [ZREM key member]. *)
Definition ZREM (t : Z) (key : string) (member : string) (st : Store) : Z * Store :=
  let z := zset_at t st key in
  (match z !! member with Some _ => 1 | None => 0 end,
   write t st key (delete member z)).

(** [DEL key ...]: replies with the number of keys that were there. *)
Definition DEL (t : Z) (keys : list string) (st : Store) : Z * Store :=
  (Z.of_nat (length (List.filter (fun k => bool_decide (is_Some (read t st k)))
                       keys)),
   foldr delete st keys).

(** [KEYS pattern]: the live keys the pattern matches.  The glob matcher is
    the store's own; it is taken as a parameter. *)
Definition KEYS (glob : string -> string -> bool) (t : Z) (pattern : string)
  (st : Store) : list string * Store :=
  (List.filter (fun k => bool_decide (is_Some (read t st k)) && glob pattern k)
     (map fst (map_to_list st)), st).

(** ** Effects

    What a middleware invocation depends on besides its arguments: the
    store, and the behaviour of its surroundings.  [redis_down n] tells
    whether the [n]-th round trip to the store fails (connection lost,
    command timed out); [mathRandom n] is the text of the [n]-th
    [Math.random()] draw as a template literal renders it; [redis_glob] is
    the store's glob matcher, used by [KEYS]; [host_prop p] tells what
    reading the built-in [JHost p] gives on this host. *)

Inductive host_answer : Type :=
| HostTruthy     (* the property is there and truthy *)
| HostFalsy      (* the property is missing or falsy *)
| HostThrows.    (* reading the property throws *)

Record env : Type := mkEnv {
  redis_down : nat -> bool;
  mathRandom : nat -> string;
  redis_glob : string -> string -> bool;
  host_prop : list string -> host_answer
}.

Record world : Type := mkWorld {
  store : Store;
  ncalls : nat;    (* round trips attempted so far *)
  ndraws : nat;    (* Math.random() draws taken so far *)
  nfailed : nat    (* round trips that failed so far *)
}.

Inductive exn : Type :=
| StoreError (call : nat)         (* a rejected command *)
| TypeError (message : string)
| RangeError (message : string).

(** State and exceptions: a computation returns a value or throws, and
    leaves a world behind in both cases. *)
Definition M (A : Type) : Type := world -> (exn + A) * world.

Definition ret {A : Type} (a : A) : M A := fun w => (inr a, w).

Definition bind {A B : Type} (m : M A) (k : A -> M B) : M B :=
  fun w =>
    match m w with
    | (inr a, w') => k a w'
    | (inl e, w') => (inl e, w')
    end.

Definition throw {A : Type} (e : exn) : M A := fun w => (inl e, w).

Definition try_catch {A : Type} (m : M A) (handler : exn -> M A) : M A :=
  fun w =>
    match m w with
    | (inr a, w') => (inr a, w')
    | (inl e, w') => handler e w'
    end.

Notation "x <- m ;; k" := (bind m (fun x => k))
  (at level 100, m at next level, right associativity).

(** One awaited command ([await redis.zrange(...)]): a round trip that
    fails rejects the promise, so the [await] throws, and leaves the store as
    it was; else the command runs. *)
Definition remote {A : Type} (E : env) (cmd : Store -> A * Store) : M A :=
  fun w =>
    if redis_down E (ncalls w)
    then (inl (StoreError (ncalls w)),
          mkWorld (store w) (S (ncalls w)) (ndraws w) (S (nfailed w)))
    else let r := cmd (store w) in
         (inr r.1, mkWorld r.2 (S (ncalls w)) (ndraws w) (nfailed w)).

(** [await pipeline.exec()]: one round trip for the queued commands.  The
    promise of [exec()] is not rejected when the round trip fails: it
    resolves with an error in place of every reply ([[err, undefined]] for
    each command), [None] here, and the store is left as it was. *)
Definition exec {A : Type} (E : env) (cmds : Store -> A * Store) : M (option A) :=
  fun w =>
    if redis_down E (ncalls w)
    then (inr None,
          mkWorld (store w) (S (ncalls w)) (ndraws w) (S (nfailed w)))
    else let r := cmds (store w) in
         (inr (Some r.1), mkWorld r.2 (S (ncalls w)) (ndraws w) (nfailed w)).

Definition MathRandom (E : env) : M string :=
  fun w => (inr (mathRandom E (ndraws w)),
            mkWorld (store w) (ncalls w) (S (ndraws w)) (nfailed w)).

(** ** Requests and responses *)

Record gql_body : Type := mkBody {
  query : option string;
  operationName : option string
}.

Record request : Type := mkReq {
  ip : option string;               (* req.ip *)
  x_forwarded_for : option string;  (* req.headers["x-forwarded-for"] *)
  remoteAddress : option string;    (* req.connection.remoteAddress *)
  path : string;                    (* req.path *)
  url : string;                     (* req.url *)
  upgrade : option string;          (* req.headers.upgrade *)
  body : option gql_body            (* req.body *)
}.

(** What a middleware did with the request: called [next()] after setting
    the given response headers, or ended the response itself. *)
Inductive outcome : Type :=
| Next (headers : list (string * jsval))
| Reply (status : Z) (headers : list (string * jsval)) (payload : jsval).

(** ** The rate limiter ([rateLimiter.js]) *)

(** A string operand of [||]: absent and empty are both falsy. *)
Definition str_truthy (o : option string) : bool :=
  match o with
  | Some s => negb (String.eqb s "")
  | None => false
  end.

(** A value interpolated into a template literal. *)
Definition interpolate (o : option string) : string :=
  match o with
  | Some s => s
  | None => "undefined"
  end.

(** [req.ip || req.headers["x-forwarded-for"] || req.connection.remoteAddress] *)
Definition client_ip (req : request) : option string :=
  if str_truthy (ip req) then ip req
  else if str_truthy (x_forwarded_for req) then x_forwarded_for req
  else remoteAddress req.

Definition rate_key (ip : option string) (path : string) : string :=
  "rate_limit:" +:+ interpolate ip +:+ ":" +:+ path.

(** The nonce [`${now}-${Math.random()}`]. *)
Definition nonce (now : Z) (draw : string) : string :=
  pretty now +:+ "-" +:+ draw.

(** [Math.ceil(a / 1000)] on integers. *)
Definition ceil_div_1000 (a : Z) : Z := (a + 999) / 1000.

(** The four queued commands, executed in order by one [exec()]. *)
Definition pipeline (key : string) (now windowStart : Z) (member : string)
  (seconds : Z) (st : Store) : list Z * Store :=
  let r0 := ZREMRANGEBYSCORE now key 0 windowStart st in
  let r1 := ZCARD now key r0.2 in
  let r2 := ZADD now key now member r1.2 in
  let r3 := EXPIRE now key seconds r2.2 in
  ([r0.1; r1.1; r2.1; r3.1], r3.2).

Definition rejected_headers (rule : RateLimitRule) (now retryAfter : Z)
  : list (string * jsval) :=
  [("X-RateLimit-Limit", JNum (maxRequests rule));
   ("X-RateLimit-Remaining", JNum 0);
   ("X-RateLimit-Reset", JIso (now + windowMs rule));
   ("Retry-After", JNum retryAfter)].

Definition rejected_payload (rule : RateLimitRule) (retryAfter : Z) : jsval :=
  JObj [("success", JBool false);
        ("error", JStr "RATE_LIMIT_EXCEEDED");
        ("message", JStr (message rule));
        ("retryAfter", JNum retryAfter)].

Definition passed_headers (rule : RateLimitRule) (now currentRequests : Z)
  : list (string * jsval) :=
  let remaining := maxRequests rule - currentRequests - 1 in
  [("X-RateLimit-Limit", JNum (maxRequests rule));
   ("X-RateLimit-Remaining", JNum (Z.max 0 remaining));
   ("X-RateLimit-Reset", JIso (now + windowMs rule))].

(** The headers of a passed request whose count is [undefined]:
    [maxRequests - undefined - 1] is [NaN], and so is [Math.max(0, NaN)]. *)
Definition uncounted_headers (rule : RateLimitRule) (now : Z)
  : list (string * jsval) :=
  [("X-RateLimit-Limit", JNum (maxRequests rule));
   ("X-RateLimit-Remaining", JNaN);
   ("X-RateLimit-Reset", JIso (now + windowMs rule))].

(** The [try] block from the key on (lines 36 to 103), for the fields
    [rule] that line 33 destructured from the looked-up value.  [now] is the
    value [Date.now()] returns.  When [exec()] comes back with errors,
    [results[1][1]] is [undefined]: [undefined >= maxRequests] is false and
    the request takes the branch of a passed request. *)
Definition rateLimiterTry (E : env) (rule : RateLimitRule) (req : request)
  (now : Z) : M outcome :=
  let key := rate_key (client_ip req) (path req) in
  let windowStart := now - windowMs rule in
  draw <- MathRandom E ;;
  results <- exec E (pipeline key now windowStart (nonce now draw)
                       (ceil_div_1000 (windowMs rule))) ;;
  match results with
  | None => ret (Next (uncounted_headers rule now))
  | Some results =>
      let currentRequests := default 0 (results !! 1%nat) in
      if maxRequests rule <=? currentRequests then
        oldestRequestResult <- remote E (ZRANGE_0_0 now key) ;;
        let retryAfter :=
          match oldestRequestResult with
          | Some (_, oldestTimestamp) =>
              ceil_div_1000 (oldestTimestamp + windowMs rule - now)
          | None => ceil_div_1000 (windowMs rule)
          end in
        draw' <- MathRandom E ;;
        _ <- remote E (ZREM now key (nonce now draw')) ;;
        ret (Reply 429 (rejected_headers rule now retryAfter)
               (rejected_payload rule retryAfter))
      else
        ret (Next (passed_headers rule now currentRequests))
  end.

(** The middleware on a request whose looked-up value is the rule [rule]:
    the [catch] block calls [next()] with nothing set.
    [rateLimiterMiddleware] below starts from the request alone. *)
Definition createRateLimiter (E : env) (rule : RateLimitRule) (req : request)
  (now : Z) : M outcome :=
  try_catch (rateLimiterTry E rule req now) (fun _ => ret (Next [])).

(** [getRateLimitRule(req.path)] as the host evaluates it.  Where the lookup
    ends at a built-in two steps from [Object.prototype] (the second segment
    of the path names a member of [Object.prototype], the third a property
    of that member), the host decides: the read may throw; a missing or
    falsy property sends the lookup on to [serviceRules.default], which no
    built-in has, and so to the global default rule. *)
Definition lookup (E : env) (path : string) : exn + jsval :=
  match getRateLimitRule path with
  | JHost p =>
      if (length p <? 2)%nat then inr (JHost p)
      else match host_prop E p with
           | HostTruthy => inr (JHost p)
           | HostFalsy => inr (get_prop rateLimitRules "default")
           | HostThrows => inl (TypeError "")
           end
  | v => inr v
  end.

(** The rule the middleware works with, if the lookup gives one. *)
Definition rule_of (E : env) (path : string) : option RateLimitRule :=
  match lookup E path with
  | inr v => as_rule v
  | inl _ => None
  end.

(** The four queued commands when [windowMs] is [undefined]: the bound
    [NaN] of [ZREMRANGEBYSCORE] and the [NaN] seconds of [EXPIRE] are
    refused by the store, which replies with an error to each of the two;
    [ZCARD] and [ZADD] run. *)
Definition pipeline_NaN (key : string) (now : Z) (member : string) (st : Store)
  : list (option Z) * Store :=
  let r1 := ZCARD now key st in
  let r2 := ZADD now key now member r1.2 in
  ([None; Some r1.1; Some r2.1; None], r2.2).

(** The [try] block from the key on when the looked-up value is no rule, so
    that [windowMs], [maxRequests] and [message] are [undefined].  The
    commands are queued and sent as before; [currentRequests >= undefined]
    is false whatever the count; the headers of a passed request are
    computed next, and [new Date(now + undefined).toISOString()] throws
    before [res.set] is called. *)
Definition rateLimiterNoRule (E : env) (req : request) (now : Z) : M outcome :=
  let key := rate_key (client_ip req) (path req) in
  draw <- MathRandom E ;;
  _ <- exec E (pipeline_NaN key now (nonce now draw)) ;;
  throw (RangeError "Invalid time value").

(** The middleware [createRateLimiter()] returns, which [index.js] mounts
    for every request: the whole [try] block, lookup included, and the
    [catch] block. *)
Definition rateLimiterMiddleware (E : env) (req : request) (now : Z)
  : M outcome :=
  try_catch
    (match lookup E (path req) with
     | inl e => throw e
     | inr rule =>
         match as_rule rule with
         | Some r => rateLimiterTry E r req now
         | None => rateLimiterNoRule E req now
         end
     end)
    (fun _ => ret (Next [])).

(** [resetRateLimit(ip, path = "*")]; [now] is the time at which the store
    runs the commands. *)
Definition resetRateLimit (E : env) (now : Z) (ip : option string)
  (path : string) : M bool :=
  try_catch
    (if String.eqb path "*" then
       keys <- remote E (KEYS (redis_glob E) now
                           ("rate_limit:" +:+ interpolate ip +:+ ":*")) ;;
       if (0 <? length keys)%nat then
         _ <- remote E (DEL now keys) ;; ret true
       else ret true
     else
       _ <- remote E (DEL now [rate_key ip path]) ;; ret true)
    (fun _ => ret false).

(** [getRateLimitStatus(ip, path)]; [None] is the [null] of the [catch]. *)
Record status_report : Type := mkStatus {
  st_ip : option string;
  st_path : string;
  st_limit : Z;
  st_current : Z;
  st_remaining : Z;
  st_resetAt : jsval
}.

Definition getRateLimitStatus (E : env) (rule : RateLimitRule) (now : Z)
  (ip : option string) (path : string) : M (option status_report) :=
  try_catch
    (let key := rate_key ip path in
     let windowStart := now - windowMs rule in
     _ <- remote E (ZREMRANGEBYSCORE now key 0 windowStart) ;;
     currentRequests <- remote E (ZCARD now key) ;;
     ret (Some (mkStatus ip path (maxRequests rule) currentRequests
                  (Z.max 0 (maxRequests rule - currentRequests))
                  (JIso (now + windowMs rule)))))
    (fun _ => ret None).

(** Requests served one after the other. *)
Fixpoint serve (E : env) (rule : RateLimitRule) (reqs : list (request * Z))
  : M (list outcome) :=
  match reqs with
  | [] => ret []
  | (req, now) :: rest =>
      o <- createRateLimiter E rule req now ;;
      os <- serve E rule rest ;;
      ret (o :: os)
  end.

(** ** The circuit-breaker proxy ([circuitBreaker.js], [circuitBreakerProxy.js]) *)

(** The two flags of the breaker the wrapper reads. *)
Record breaker : Type := mkBreaker {
  opened : bool;
  halfOpen : bool
}.

(** [createFallbackResponse(serviceName)], built at time [now]. *)
Definition createFallbackResponse (serviceName : string) (now : Z) : jsval :=
  JObj [("success", JBool false);
        ("error", JStr "SERVICE_UNAVAILABLE");
        ("message", JStr (serviceName +:+
           " is temporarily unavailable. Please try again later."));
        ("service", JStr serviceName);
        ("timestamp", JIso now)].

(** [toLowerCase()] on the ASCII letters. *)
Definition lower_ascii (c : Ascii.ascii) : Ascii.ascii :=
  let n := Ascii.nat_of_ascii c in
  if ((65 <=? n) && (n <=? 90))%nat then Ascii.ascii_of_nat (n + 32) else c.

Fixpoint toLowerCase (s : string) : string :=
  match s with
  | EmptyString => EmptyString
  | String c s' => String (lower_ascii c) (toLowerCase s')
  end.

(** [req.headers.upgrade?.toLowerCase() === 'websocket'] *)
Definition isWebSocket (req : request) : bool :=
  match upgrade req with
  | Some u => String.eqb (toLowerCase u) "websocket"
  | None => false
  end.

(** What the wrapper returned by [createCircuitBreakerProxy] does, in order:
    it hands the request to the proxy middleware (the only step that opens
    a connection to the upstream), with or without the [res.end] hook that
    samples successes, or it ends the response itself. *)
Inductive effect : Type :=
| CallProxy (service : string) (hooked : bool)
| Send (status : Z) (payload : jsval).

(** The Express-level wrapper; [headersSent] is [res.headersSent]. *)
Definition createCircuitBreakerProxy (serviceName : string) (b : breaker)
  (req : request) (headersSent : bool) (now : Z) : list effect :=
  if isWebSocket req then [CallProxy serviceName false]
  else if opened b then
    if negb headersSent
    then [Send 503 (createFallbackResponse serviceName now)]
    else []
  else [CallProxy serviceName true].

(** ** GraphQL routing ([index.js]) *)

(** [hay.includes(needle)] *)
Fixpoint includes (needle hay : string) : bool :=
  String.prefix needle hay ||
  match hay with
  | EmptyString => false
  | String _ hay' => includes needle hay'
  end.

(** [req.body?.query || ""] and [req.body?.operationName || ""], for a
    body that carries the two as strings, if at all. *)
Definition body_query (req : request) : string :=
  match body req with
  | Some b => default "" (query b)
  | None => ""
  end.

Definition body_operationName (req : request) : string :=
  match body req with
  | Some b => default "" (operationName b)
  | None => ""
  end.

(** The test that selects the comment service for a parsed body. *)
Definition comment_keywords : list string :=
  ["subscription"; "commentAdded"; "commentDeleted"; "commentUpdated";
   "getComments"; "createComment"; "deleteComment"].

Definition looks_like_comment (req : request) : bool :=
  let query := body_query req in
  let operationName := body_operationName req in
  includes "subscription" query ||
  includes "commentAdded" query ||
  includes "commentDeleted" query ||
  includes "commentUpdated" query ||
  includes "getComments" query ||
  includes "createComment" query ||
  includes "deleteComment" query ||
  includes "comment" (toLowerCase operationName).

(** The three proxies the last handler of the [/graphql] route chooses from. *)
Inductive graphql_proxy : Type :=
| commentGraphQLWsProxy
| commentGraphQLHttpProxy
| postGraphQLHttpProxy.

Definition graphql_route (req : request) : graphql_proxy :=
  if isWebSocket req then commentGraphQLWsProxy
  else if looks_like_comment req then commentGraphQLHttpProxy
  else postGraphQLHttpProxy.

(** Where a request ends up. *)
Inductive upstream : Type :=
| AuthService | PostService | MediaService | CommentService | NotificationService.

Inductive dispatch : Type :=
| Forwarded (u : upstream)          (* HTTP request proxied *)
| Upgraded (u : upstream)           (* WebSocket handshake proxied *)
| Answered (status : Z) (payload : jsval)
| Unhandled.

Definition of_effects (u : upstream) (es : list effect) : dispatch :=
  match es with
  | CallProxy _ _ :: _ => Forwarded u
  | Send status payload :: _ => Answered status payload
  | [] => Unhandled
  end.

(** The last handler of [app.use("/graphql", ...)], for a body whose
    [query] and [operationName] are strings where present.  The comment and
    post HTTP proxies are breaker-guarded, the WebSocket proxy is not;
    called as middleware, on a request that carries the header
    [Upgrade: websocket], it forwards that request as the HTTP request it
    is (handshakes reach the server's [upgrade] event, see [on_upgrade]). *)
Definition graphql_handler (comment post : breaker) (req : request)
  (headersSent : bool) (now : Z) : dispatch :=
  match graphql_route req with
  | commentGraphQLWsProxy => Forwarded CommentService
  | commentGraphQLHttpProxy =>
      of_effects CommentService
        (createCircuitBreakerProxy "comment" comment req headersSent now)
  | postGraphQLHttpProxy =>
      of_effects PostService
        (createCircuitBreakerProxy "post" post req headersSent now)
  end.

(** [httpServer.on('upgrade', ...)] *)
Definition on_upgrade (req : request) : dispatch :=
  if String.prefix "/notifications/socket.io" (url req)
  then Upgraded NotificationService
  else if String.prefix "/graphql" (url req) && isWebSocket req
  then Upgraded CommentService
  else Unhandled.

(** The operations of the two GraphQL services: the fields of the comment
    service's schema ([comment-service/src/graphql/schema.js]) and the post
    operations the README documents. *)
Definition comment_operations : list string :=
  ["getComments"; "createComment"; "deleteComment";
   "commentAdded"; "commentUpdated"; "commentDeleted"].

Definition post_operations : list string :=
  ["createPost"; "deletePost"; "getPosts"; "getPost"].

Definition mentions (ops : list string) (text : string) : bool :=
  existsb (fun op => includes op text) ops.

(** Lookup of a response header by name. *)
Definition header (name : string) (hs : list (string * jsval)) : option jsval :=
  assoc name hs.

(** ** Derived notions and fixtures

    Names for intermediate results of the limiter, invariants of the store,
    and the concrete environments, worlds and requests the examples run on. *)

(** The twelve rules of the table. *)
Definition all_rules : list RateLimitRule :=
  [rule_default; rule_auth_login; rule_auth_register; rule_auth_refresh;
   rule_auth_default; rule_posts_create; rule_posts_list; rule_posts_default;
   rule_comments_create; rule_comments_default; rule_media_upload;
   rule_media_default].

(** What a lookup can return: a rule of the table, a field of the global
    default rule, or a built-in. *)
Definition lookup_value (v : jsval) : Prop :=
  (exists r, In r all_rules /\ v = rule_obj r) \/
  v = JNum (windowMs rule_default) \/
  v = JNum (maxRequests rule_default) \/
  v = JStr (message rule_default) \/
  exists q, v = JHost q.

(** A request without body or upgrade header. *)
Definition plain_request (p : string) : request :=
  mkReq (Some "203.0.113.7") None None p p None None.

(** A post operation of the README, named by the client after the
    [commentCount] field it selects. *)
Definition posts_with_comment_count : request :=
  mkReq (Some "203.0.113.7") None None "/graphql" "/graphql" None
    (Some (mkBody
       (Some "query PostsWithCommentCount { getPosts(input: { limit: 10 }) { success posts { id content commentCount } } }")
       (Some "PostsWithCommentCount"))).

(** A request on the GraphQL path. *)
Definition graphql_request (u : option string) (q : string) (op : option string)
  : request :=
  mkReq (Some "203.0.113.7") None None "/graphql" "/graphql" u
    (Some (mkBody (Some q) op)).

(** The members of a key that [ZREMRANGEBYSCORE key 0 windowStart] keeps. *)
Definition pruned (now windowStart : Z) (st : Store) (key : string)
  : gmap string Z :=
  filter (fun ms => in_range 0 windowStart ms.2 = false) (zset_at now st key).

(** The store after the request's pipeline ran, the count it reported, and
    the Retry-After the rejection path derives from them. *)
Definition exec_results (E : env) (rule : RateLimitRule) (req : request)
  (now : Z) (w : world) : list Z * Store :=
  pipeline (rate_key (client_ip req) (path req)) now (now - windowMs rule)
    (nonce now (mathRandom E (ndraws w))) (ceil_div_1000 (windowMs rule))
    (store w).

Definition window_count (E : env) (rule : RateLimitRule) (req : request)
  (now : Z) (w : world) : Z :=
  default 0 ((exec_results E rule req now w).1 !! 1%nat).

Definition retry_after (E : env) (rule : RateLimitRule) (req : request)
  (now : Z) (w : world) : Z :=
  match (ZRANGE_0_0 now (rate_key (client_ip req) (path req))
           (exec_results E rule req now w).2).1 with
  | Some (_, oldest) => ceil_div_1000 (oldest + windowMs rule - now)
  | None => ceil_div_1000 (windowMs rule)
  end.

Definition after_zrem (E : env) (rule : RateLimitRule) (req : request)
  (now : Z) (w : world) : Store :=
  (ZREM now (rate_key (client_ip req) (path req))
     (nonce now (mathRandom E (S (ndraws w))))
     (exec_results E rule req now w).2).2.

(** The world a request without a rule leaves behind when its commands
    were sent: [ZADD] has run if the store answered. *)
Definition after_no_rule (E : env) (req : request) (now : Z) (w : world)
  : world :=
  if redis_down E (ncalls w)
  then mkWorld (store w) (S (ncalls w)) (S (ndraws w)) (S (nfailed w))
  else mkWorld
         (pipeline_NaN (rate_key (client_ip req) (path req)) now
            (nonce now (mathRandom E (ndraws w))) (store w)).2
         (S (ncalls w)) (S (ndraws w)) (nfailed w).

(** A store that answers every round trip, one that answers none, and one
    that fails the round trip numbered [n] only. *)
Definition quiet : env :=
  mkEnv (fun _ => false) (fun n => "0." +:+ pretty n) (fun _ _ => false)
    (fun _ => HostFalsy).

Definition store_gone : env :=
  mkEnv (fun _ => true) (fun n => "0." +:+ pretty n) (fun _ _ => false)
    (fun _ => HostFalsy).

Definition fails_at (n : nat) : env :=
  mkEnv (Nat.eqb n) (fun n => "0." +:+ pretty n) (fun _ _ => false)
    (fun _ => HostFalsy).

Definition fresh_world : world := mkWorld ∅ 0 0 0.

Definition login_request : request := plain_request "/api/auth/login".

(** The headers set on the response, whichever way the middleware ended. *)
Definition outcome_headers (o : outcome) : list (string * jsval) :=
  match o with
  | Next hs => hs
  | Reply _ hs _ => hs
  end.

(** Scores are values of [Date.now()]: milliseconds since the epoch. *)
Definition scores_nonneg (st : Store) : Prop :=
  map_Forall (fun _ e => map_Forall (fun _ s => 0 <= s) (zs e)) st.

#[global] Instance scores_nonneg_dec (st : Store) : Decision (scores_nonneg st).
Proof. unfold scores_nonneg. apply _. Defined.

Definition t0 : Z := 1700000000000.

(** Five logins of one client, one second apart. *)
Definition five_logins : world :=
  (serve quiet rule_auth_login
     [(login_request, t0); (login_request, t0 + 1000);
      (login_request, t0 + 2000); (login_request, t0 + 3000);
      (login_request, t0 + 4000)] fresh_world).2.

(** Two logins far apart, so that the first is older than the window when
    the status is asked for while the key is still alive. *)
Definition two_logins : world :=
  (serve quiet rule_auth_login
     [(login_request, t0); (login_request, t0 + 500000)] fresh_world).2.

(** What the limiter needs of the store to count exactly the requests of
    one window that began at [a]: at every instant of the window the key
    reads as [z], and no member of [z] is older than [a]. *)
Definition window_holds (rule : RateLimitRule) (key : string) (a : Z)
  (z : gmap string Z) (w : world) : Prop :=
  (forall t, a <= t < a + windowMs rule -> zset_at t (store w) key = z) /\
  map_Forall (fun _ s => a <= s) z.

(** ** Further notions for the limiter's properties *)

(** [s] contains the character [c]. *)
Fixpoint has_char (c : Ascii.ascii) (s : string) : bool :=
  match s with
  | EmptyString => false
  | String d s' => Ascii.eqb d c || has_char c s'
  end.

(** [s] without its last character. *)
Fixpoint drop_last (s : string) : string :=
  match s with
  | EmptyString => EmptyString
  | String c EmptyString => EmptyString
  | String c s' => String c (drop_last s')
  end.

(** A store whose matcher reads a pattern ending in a star as a prefix, as
    Redis does for a pattern with no other special character. *)
Definition prefix_matching : env :=
  mkEnv (fun _ => false) (fun n => "0." +:+ pretty n)
    (fun pattern k => String.prefix (drop_last pattern) k)
    (fun _ => HostFalsy).

(** ** The breaker registry ([config/circuitBreaker.js],
    [middleware/circuitBreaker.js]) *)

Record breaker_options : Type := mkOptions {
  opt_timeout : Z;
  opt_errorThresholdPercentage : Z;
  opt_resetTimeout : Z;
  opt_rollingCountTimeout : Z;
  opt_rollingCountBuckets : Z;
  opt_name : string;
  opt_volumeThreshold : Z
}.

Definition circuitBreakerOptions : breaker_options :=
  mkOptions 10000 30 30000 10000 10 "microservice-circuit-breaker" 1.

Definition serviceCircuitBreakerOptions : jsval :=
  JObj [
    ("auth", JObj [("timeout", JNum 5000);
                   ("errorThresholdPercentage", JNum 50);
                   ("resetTimeout", JNum 20000)]);
    ("post", JObj [("timeout", JNum 10000);
                   ("errorThresholdPercentage", JNum 50);
                   ("resetTimeout", JNum 30000)]);
    ("comment", JObj [("timeout", JNum 10000);
                      ("errorThresholdPercentage", JNum 50);
                      ("resetTimeout", JNum 30000)]);
    ("media", JObj [("timeout", JNum 30000);
                    ("errorThresholdPercentage", JNum 60);
                    ("resetTimeout", JNum 45000)])
  ].

(** A breaker of the registry: the service it guards (its fallback answers
    with [createFallbackResponse(serviceName)]), the base URL its request
    function calls, its options, and the two flags of its state.  [sb_stats]
    stands for the [stats] entry that [getAllCircuitBreakerStatuses] builds
    from the library's counters. *)
Record service_breaker : Type := mkServiceBreaker {
  sb_service : string;
  sb_baseURL : string;
  sb_options : breaker_options;
  sb_state : breaker;
  sb_stats : jsval
}.

(** [createCircuitBreaker(requestFunction, serviceName)]: the shared
    options under the service's name; a new breaker is closed.  The event
    listeners it registers only log. *)
Definition createCircuitBreaker (serviceName : string) : breaker_options :=
  mkOptions (opt_timeout circuitBreakerOptions)
    (opt_errorThresholdPercentage circuitBreakerOptions)
    (opt_resetTimeout circuitBreakerOptions)
    (opt_rollingCountTimeout circuitBreakerOptions)
    (opt_rollingCountBuckets circuitBreakerOptions)
    (serviceName +:+ "-breaker")
    (opt_volumeThreshold circuitBreakerOptions).

(** [if (options.f) breaker.options.f = options.f] for a numeric option. *)
Definition override (v : jsval) (current : Z) : Z :=
  match v with
  | JNum n => if truthy v then n else current
  | _ => current
  end.

(** The options of a new breaker once the service's own are applied. *)
Definition service_options (serviceName : string) : breaker_options :=
  let options :=
    if truthy (get_prop serviceCircuitBreakerOptions serviceName)
    then get_prop serviceCircuitBreakerOptions serviceName
    else JObj [] in
  let o := createCircuitBreaker serviceName in
  mkOptions
    (override (get_prop options "timeout") (opt_timeout o))
    (override (get_prop options "errorThresholdPercentage")
       (opt_errorThresholdPercentage o))
    (override (get_prop options "resetTimeout") (opt_resetTimeout o))
    (opt_rollingCountTimeout o) (opt_rollingCountBuckets o) (opt_name o)
    (opt_volumeThreshold o).

(** [getServiceCircuitBreaker(serviceName, serviceUrl)] on the registry
    [circuitBreakers]; [fresh_stats] is the [stats] of a breaker that has not
    run yet.  The definition is for service names that name no member of
    [Object.prototype]: for such a name the code finds a built-in in the
    registry and returns it, creating nothing. *)
Definition getServiceCircuitBreaker (fresh_stats : jsval)
  (serviceName serviceUrl : string) (circuitBreakers : gmap string service_breaker)
  : service_breaker * gmap string service_breaker :=
  match circuitBreakers !! serviceName with
  | Some b => (b, circuitBreakers)
  | None =>
      let b := mkServiceBreaker serviceName serviceUrl
                 (service_options serviceName) (mkBreaker false false)
                 fresh_stats in
      (b, <[serviceName := b]> circuitBreakers)
  end.

(** [breaker.close()]: the breaker leaves the open and the half-open state. *)
Definition close (b : service_breaker) : service_breaker :=
  mkServiceBreaker (sb_service b) (sb_baseURL b) (sb_options b)
    (mkBreaker false false) (sb_stats b).

(** [resetCircuitBreaker(serviceName)].  The registry is an object
    literal: for a name it does not hold but [Object.prototype] does,
    [circuitBreakers[serviceName]] is a built-in, which is truthy and has no
    [close], and [breaker.close()] throws a [TypeError]. *)
Definition resetCircuitBreaker (serviceName : string)
  (circuitBreakers : gmap string service_breaker)
  : (exn + bool) * gmap string service_breaker :=
  match circuitBreakers !! serviceName with
  | Some b => (inr true, <[serviceName := close b]> circuitBreakers)
  | None =>
      if inherited serviceName
      then (inl (TypeError "breaker.close is not a function"), circuitBreakers)
      else (inr false, circuitBreakers)
  end.

(** [resetAllCircuitBreakers()] *)
Definition resetAllCircuitBreakers
  (circuitBreakers : gmap string service_breaker) : gmap string service_breaker :=
  close <$> circuitBreakers.

(** One entry of [getAllCircuitBreakerStatuses()]. *)
Record breaker_status : Type := mkBreakerStatus {
  bs_state : string;
  bs_healthy : bool;
  bs_stats : jsval
}.

(** [breaker.opened ? "OPEN" : breaker.halfOpen ? "HALF_OPEN" : "CLOSED"] *)
Definition state_name (b : breaker) : string :=
  if opened b then "OPEN" else if halfOpen b then "HALF_OPEN" else "CLOSED".

Definition getAllCircuitBreakerStatuses
  (circuitBreakers : gmap string service_breaker) : gmap string breaker_status :=
  (fun b => mkBreakerStatus (state_name (sb_state b))
              (negb (opened (sb_state b))) (sb_stats b)) <$> circuitBreakers.

(** [GET /health/circuit-breakers]: the status code, the [success] flag and
    the statuses of the body. *)
Definition health_circuit_breakers
  (circuitBreakers : gmap string service_breaker)
  : Z * bool * gmap string breaker_status :=
  let statuses := getAllCircuitBreakerStatuses circuitBreakers in
  let allHealthy := forallb bs_healthy (map snd (map_to_list statuses)) in
  (if allHealthy then 200 else 503, allHealthy, statuses).

(** The error handler at the end of [index.js], reached when a route
    handler throws: [err.status || 500] and
    [err.message || "Internal server error"], for an error without
    [status]. *)
Definition error_handler (e : exn) : Z * jsval :=
  let message := match e with
                 | TypeError m => m
                 | RangeError m => m
                 | StoreError _ => ""
                 end in
  (500, JObj [("success", JBool false);
              ("message", JStr (if String.eqb message ""
                                then "Internal server error" else message))]).

(** [POST /admin/circuit-breakers/:service/reset] *)
Definition admin_reset (service : string)
  (circuitBreakers : gmap string service_breaker)
  : Z * jsval * gmap string service_breaker :=
  let r := resetCircuitBreaker service circuitBreakers in
  match r.1 with
  | inr true =>
      (200, JObj [("success", JBool true);
                  ("message", JStr ("Circuit breaker reset for " +:+ service))],
       r.2)
  | inr false =>
      (404, JObj [("success", JBool false);
                  ("message",
                   JStr ("Circuit breaker not found for " +:+ service))],
       r.2)
  | inl e => (error_handler e, r.2)
  end.

(** The registry once [index.js] has built its four guarded proxies, in the
    order of the file; each [createCircuitBreakerProxy] starts by asking the
    registry for its breaker. *)
Definition registry_at_startup (fresh_stats : jsval)
  (auth_url media_url comment_url post_url : string)
  : gmap string service_breaker :=
  let r1 := (getServiceCircuitBreaker fresh_stats "auth" auth_url ∅).2 in
  let r2 := (getServiceCircuitBreaker fresh_stats "media" media_url r1).2 in
  let r3 := (getServiceCircuitBreaker fresh_stats "comment" comment_url r2).2 in
  (getServiceCircuitBreaker fresh_stats "post" post_url r3).2.

(** ** The hooks of the guarded proxy ([circuitBreakerProxy.js]) *)

(** What a hook does, in order: it destroys the outgoing request, ends the
    response, runs the hook the caller supplied in [proxyOptions], or fires
    the breaker's probe ([HEAD /health], 500 ms). *)
Inductive hook_effect : Type :=
| DestroyProxyReq
| Respond (status : Z) (payload : jsval)
| Original
| Probe.

(** The merged [onProxyReq]; [custom] tells whether [proxyOptions] has an
    [onProxyReq] of its own. *)
Definition onProxyReq (serviceName : string) (b : breaker) (headersSent : bool)
  (custom : bool) (now : Z) : list hook_effect :=
  if opened b then
    DestroyProxyReq ::
    (if negb headersSent
     then [Respond 503 (createFallbackResponse serviceName now)] else [])
  else if custom then [Original] else [].

(** The merged [onError].  [b] is the breaker as read before the probe is
    fired, [b'] as read when the default response is chosen; [code] is
    [err.code]. *)
Definition onError (serviceName : string) (b b' : breaker)
  (code : option string) (headersSent : bool) (custom : bool) (now : Z)
  : list hook_effect :=
  (if negb (opened b) then [Probe] else []) ++
  (if custom then [Original]
   else if negb headersSent then
     if opened b' then [Respond 503 (createFallbackResponse serviceName now)]
     else [Respond 502
             (JObj [("success", JBool false);
                    ("message",
                     JStr ("Gateway proxy error: " +:+ serviceName +:+
                           " service unavailable"));
                    ("error",
                     JStr (if str_truthy code then interpolate code
                           else "PROXY_ERROR"))])]
   else []).

(** [breaker.halfOpen || Math.random() < 0.1]; [sampled] is the outcome of
    the comparison when it is made. *)
Definition tracks (b : breaker) (sampled : bool) : bool :=
  halfOpen b || sampled.

(** The merged [onProxyRes] for a response with status [statusCode]. *)
Definition onProxyRes (b : breaker) (statusCode : Z) (sampled : bool)
  (custom : bool) : list hook_effect :=
  (if (200 <=? statusCode) && (statusCode <? 300)
   then if tracks b sampled then [Probe] else []
   else []) ++
  (if custom then [Original] else []).

(** The [res.end] the wrapper installs: [responseHandled] is its flag; the
    result is what it does before calling the original [end], and the flag
    afterwards. *)
Definition end_hook (b : breaker) (responseHandled : bool) (statusCode : Z)
  (sampled : bool) : list hook_effect * bool :=
  if responseHandled then ([], true)
  else (if (200 <=? statusCode) && (statusCode <? 300)
        then if tracks b sampled then [Probe] else []
        else [],
        true).

(** ** Authentication ([middleware/auth.js]) and identity headers *)

Fixpoint string_drop (n : nat) (s : string) : string :=
  match n, s with
  | O, _ => s
  | S n', String _ s' => string_drop n' s'
  | S _, EmptyString => EmptyString
  end.

(** [s.replace(pat, "")] for a string pattern: the first occurrence goes. *)
Fixpoint remove_first (pat s : string) : string :=
  if String.prefix pat s then string_drop (String.length pat) s
  else match s with
       | EmptyString => EmptyString
       | String c s' => String c (remove_first pat s')
       end.

Record credentials : Type := mkCredentials {
  cookie_access_token : option string;   (* req.cookies.access_token *)
  authorization : option string          (* req.headers.authorization *)
}.

(** [req.cookies.access_token ||
     req.headers.authorization?.replace("Bearer ", "")] *)
Definition request_token (c : credentials) : option string :=
  if str_truthy (cookie_access_token c) then cookie_access_token c
  else option_map (remove_first "Bearer ") (authorization c).

Inductive auth_result : Type :=
| Authenticated (user : jsval)           (* req.user = user; next() *)
| Denied (status : Z) (payload : jsval).

(** [authenticateToken]; [verifyToken] is [jwt.verify] under the secret,
    with [None] for the [null] of a token that does not verify. *)
Definition authenticateToken (verifyToken : string -> option jsval)
  (c : credentials) : auth_result :=
  if negb (str_truthy (request_token c)) then
    Denied 401 (JObj [("success", JBool false);
                      ("message", JStr "Authentication required")])
  else
    match verifyToken (interpolate (request_token c)) with
    | Some user =>
        if truthy user then Authenticated user
        else Denied 403 (JObj [("success", JBool false);
                               ("message", JStr "Invalid or expired token")])
    | None =>
        Denied 403 (JObj [("success", JBool false);
                          ("message", JStr "Invalid or expired token")])
    end.

(** [proxyReq.setHeader(name, value)], call after call.  Node validates
    the value and throws on one it does not accept ([undefined], or text
    with a character that cannot go into a header); [accepts] is that check.
    The result is the headers set and whether a call threw. *)
Fixpoint setHeaders (accepts : jsval -> bool) (hs : list (string * jsval))
  : list (string * jsval) * bool :=
  match hs with
  | [] => ([], false)
  | (name, value) :: rest =>
      if accepts value
      then let r := setHeaders accepts rest in ((name, value) :: r.1, r.2)
      else ([], true)
  end.

(** [forwardUserHeaders(proxyReq, req)] for [req.user = user]. *)
Definition forwardUserHeaders (accepts : jsval -> bool) (user : option jsval)
  : list (string * jsval) * bool :=
  match user with
  | Some u =>
      if truthy u
      then setHeaders accepts [("X-User-Id", get_prop u "userId");
                               ("X-User-Email", get_prop u "email")]
      else ([], false)
  | None => ([], false)
  end.

(** A check that refuses [undefined] only. *)
Definition accepts_defined (v : jsval) : bool :=
  match v with
  | JUndefined => false
  | _ => true
  end.

(** A verifier that knows one token, of user 42. *)
Definition verify_42 (token : string) : option jsval :=
  if String.eqb token "valid-token"
  then Some (JObj [("userId", JNum 42); ("email", JStr "u42@example.com")])
  else None.

(** ** Path rewriting, reconnection and logging *)

(** [path.replace(/^\/notifications\/socket\.io/, '/socket.io')] *)
Definition notification_pathRewrite (path : string) : string :=
  if String.prefix "/notifications/socket.io" path
  then "/socket.io" +:+ string_drop (String.length "/notifications/socket.io") path
  else path.

(** [retryStrategy(times)] of the Redis client ([config/redis.js]). *)
Definition retryStrategy (times : Z) : Z := Z.min (times * 50) 2000.

(** [utils/logger.js] *)
Definition levels : jsval :=
  JObj [("error", JNum 0); ("warn", JNum 1); ("info", JNum 2); ("debug", JNum 3)].

(** [levels[process.env.LOG_LEVEL] || levels.info] *)
Definition currentLevel (LOG_LEVEL : option string) : jsval :=
  if truthy (get_prop levels (interpolate LOG_LEVEL))
  then get_prop levels (interpolate LOG_LEVEL)
  else get_prop levels "info".

(** [a <= b] on what the logger compares. *)
Definition js_le (a b : jsval) : bool :=
  match a, b with
  | JNum x, JNum y => x <=? y
  | _, _ => false
  end.

(** Whether [log(level, ...)] prints. *)
Definition logs (LOG_LEVEL : option string) (level : string) : bool :=
  js_le (get_prop levels level) (currentLevel LOG_LEVEL).

(** * Properties *)

(** ** Rule lookup *)

Example rule_login : rule_for "/api/auth/login" = Some rule_auth_login.
Proof. reflexivity. Qed.

Example rule_short : rule_for "/health" = Some rule_default.
Proof. reflexivity. Qed.

Example rule_unknown_service : rule_for "/api/users/42" = Some rule_default.
Proof. reflexivity. Qed.

Example rule_service_default : rule_for "/api/posts/123" = Some rule_posts_default.
Proof. reflexivity. Qed.

Example rule_any_prefix :
  getRateLimitRule "/anything/auth/login" = getRateLimitRule "/api/auth/login".
Proof. reflexivity. Qed.

(** The lookup reads the segments at positions 1 and 2 only. *)
Lemma getRateLimitRule_segments (p q : string) :
  (2 <= length (path_parts p))%nat ->
  (2 <= length (path_parts q))%nat ->
  path_parts p !! 1%nat = path_parts q !! 1%nat ->
  path_parts p !! 2%nat = path_parts q !! 2%nat ->
  getRateLimitRule p = getRateLimitRule q.
Proof.
  intros Hp Hq H1 H2. unfold getRateLimitRule.
  destruct (Nat.ltb_spec (length (path_parts p)) 2) as [Hlt|_]; [lia|].
  destruct (Nat.ltb_spec (length (path_parts q)) 2) as [Hlt|_]; [lia|].
  cbv zeta. rewrite H1, H2. reflexivity.
Qed.

(** Fewer than two segments: the global default rule. *)
Lemma getRateLimitRule_short (p : string) :
  (length (path_parts p) < 2)%nat ->
  getRateLimitRule p = rule_obj rule_default.
Proof.
  intros H. unfold getRateLimitRule.
  destruct (Nat.ltb_spec (length (path_parts p)) 2) as [_|Hge]; [reflexivity|lia].
Qed.

(** C10: the lookup does not return a rule for every path.  The top-level
    key [default] of the table holds a rule, not a table of rules, yet a
    path whose second segment is [default] is looked up in it as if it were
    a service: for ["/api/default/windowMs"] the function returns the number
    900000, from which no [windowMs], [maxRequests] or [message] can be
    read. *)
Theorem getRateLimitRule_default_windowMs :
  getRateLimitRule "/api/default/windowMs" = JNum 900000 /\
  rule_for "/api/default/windowMs" = None.
Proof. split; reflexivity. Qed.

Example rule_default_maxRequests :
  getRateLimitRule "/api/default/maxRequests" = JNum 100.
Proof. reflexivity. Qed.

Example rule_default_message :
  getRateLimitRule "/v2/default/message" = JStr (message rule_default).
Proof. reflexivity. Qed.

(** A third segment that names no field falls back to the global default. *)
Example rule_default_other :
  rule_for "/api/default/login" = Some rule_default.
Proof. reflexivity. Qed.

Lemma as_rule_rule_obj (r : RateLimitRule) : as_rule (rule_obj r) = Some r.
Proof. destruct r; reflexivity. Qed.

Ltac split_eqb :=
  repeat match goal with
         | |- context [String.eqb ?a ?b] => destruct (String.eqb a b)
         end.

Lemma assoc_Some_In {A : Type} (k : string) (l : list (string * A)) (v : A) :
  assoc k l = Some v -> In (k, v) l.
Proof.
  induction l as [|[k' v'] l IH]; [discriminate|]. cbn [assoc].
  destruct (String.eqb_spec k k') as [<-|_].
  - intros H. left. congruence.
  - intros H. right. exact (IH H).
Qed.

Lemma get_prop_obj (props : list (string * jsval)) (k : string) :
  get_prop (JObj props) k
  = match assoc k props with
    | Some v => v
    | None => if inherited k then JHost [k] else JUndefined
    end.
Proof. reflexivity. Qed.

Lemma get_prop_host (p : list string) (k : string) :
  get_prop (JHost p) k = JUndefined \/ get_prop (JHost p) k = JHost (p ++ [k]).
Proof. cbn [get_prop]. destruct (existsb _ _); auto. Qed.

Lemma lookup_value_rule (r : RateLimitRule) :
  In r all_rules -> lookup_value (rule_obj r).
Proof. intros H. left. eauto. Qed.

Lemma lookup_value_host (q : list string) : lookup_value (JHost q).
Proof. do 4 right. eauto. Qed.

(** Reading a property of a rule of the table, then falling back. *)
Lemma lookup_value_specific (v fallback : jsval) (action : option string) :
  lookup_value fallback ->
  (forall a, lookup_value (get_prop v a) \/ get_prop v a = JUndefined) ->
  lookup_value (if truthy match action with
                          | Some a => get_prop v a
                          | None => JUndefined
                          end
                then match action with
                     | Some a => get_prop v a
                     | None => JUndefined
                     end
                else fallback).
Proof.
  intros Hf Hv. destruct action as [a|]; [|exact Hf].
  destruct (Hv a) as [H| ->]; [|exact Hf].
  destruct (truthy (get_prop v a)); [exact H|exact Hf].
Qed.

Lemma lookup_value_table (props : list (string * jsval)) (a : string) :
  (forall k v, In (k, v) props -> lookup_value v) ->
  lookup_value (get_prop (JObj props) a) \/ get_prop (JObj props) a = JUndefined.
Proof.
  intros Hprops. rewrite get_prop_obj.
  destruct (assoc a props) as [v|] eqn:Ha.
  - left. exact (Hprops _ _ (assoc_Some_In _ _ _ Ha)).
  - destruct (inherited a); [left; apply lookup_value_host|right; reflexivity].
Qed.

Ltac service_table r :=
  cbn [truthy negb]; apply lookup_value_specific;
  [change (lookup_value (rule_obj r)); apply lookup_value_rule; cbn; tauto
  |intros a; apply lookup_value_table; intros k v Hin; cbn [In] in Hin;
   repeat (destruct Hin as [Hin|Hin];
           [injection Hin as _ <-; apply lookup_value_rule; cbn; tauto|]);
   destruct Hin].

Lemma getRateLimitRule_values (p : string) : lookup_value (getRateLimitRule p).
Proof.
  assert (Hdefault : get_prop rateLimitRules "default" = rule_obj rule_default)
    by reflexivity.
  assert (Hd : lookup_value (rule_obj rule_default))
    by (apply lookup_value_rule; cbn; tauto).
  unfold getRateLimitRule.
  destruct (length (path_parts p) <? 2)%nat; [rewrite Hdefault; exact Hd|].
  cbv zeta. generalize (default "" (path_parts p !! 1%nat)) as service.
  generalize (path_parts p !! 2%nat) as action. intros action service.
  rewrite Hdefault. unfold rateLimitRules. rewrite !get_prop_obj.
  destruct (assoc service _) as [serviceRules|] eqn:Hs.
  2:{ destruct (inherited service); cbn [truthy negb]; [|exact Hd].
      apply lookup_value_specific; [exact Hd|].
      intros a. destruct (get_prop_host [service] a) as [-> | ->];
        [right; reflexivity|left; apply lookup_value_host]. }
  apply assoc_Some_In in Hs. cbn [In] in Hs.
  repeat (destruct Hs as [Hs|Hs];
          [assert (serviceRules = snd (service, serviceRules)) as -> by reflexivity;
           rewrite <- Hs; cbn [snd]; clear Hs|]); [..|destruct Hs].
  - (* the global default rule taken for a service table *)
    cbn [truthy negb rule_obj].
    apply lookup_value_specific.
    + cbn. exact Hd.
    + intros a. apply lookup_value_table. intros k v Hin. cbn [In] in Hin.
      unfold lookup_value.
      repeat (destruct Hin as [Hin|Hin]; [injection Hin as _ <-; tauto|]).
      destruct Hin.
  - service_table rule_auth_default.
  - service_table rule_posts_default.
  - service_table rule_comments_default.
  - service_table rule_media_default.
Qed.

(** Whenever the lookup yields a rule, it is one of the twelve of the table. *)
Lemma rule_for_in_table (p : string) (r : RateLimitRule) :
  rule_for p = Some r -> In r all_rules.
Proof.
  unfold rule_for.
  destruct (getRateLimitRule_values p) as [(r0 & Hin & ->)|[->|[->|[->|[q ->]]]]];
    try discriminate.
  rewrite as_rule_rule_obj. intros H. congruence.
Qed.

Lemma rule_of_in_table (E : env) (p : string) (r : RateLimitRule) :
  rule_of E p = Some r -> In r all_rules.
Proof.
  unfold rule_of, lookup.
  destruct (getRateLimitRule_values p) as [(r0 & Hin & ->)|[->|[->|[->|[q ->]]]]];
    try discriminate.
  - change (as_rule (rule_obj r0) = Some r -> In r all_rules).
    rewrite as_rule_rule_obj. intros H. congruence.
  - destruct (length q <? 2)%nat; [discriminate|].
    destruct (host_prop E q); try discriminate.
    intros H. change (Some rule_default = Some r) in H.
    assert (r = rule_default) as -> by congruence. cbn. tauto.
Qed.

(** On a path with a rule the middleware is the limiter of that rule. *)
Lemma rateLimiterMiddleware_rule (E : env) (req : request) (now : Z)
  (rule : RateLimitRule) (w : world) :
  rule_of E (path req) = Some rule ->
  rateLimiterMiddleware E req now w = createRateLimiter E rule req now w.
Proof.
  unfold rule_of, rateLimiterMiddleware, createRateLimiter.
  destruct (lookup E (path req)) as [e|v]; [discriminate|].
  intros ->. reflexivity.
Qed.

Lemma rule_for_rule_of (E : env) (p : string) (r : RateLimitRule) :
  rule_for p = Some r -> rule_of E p = Some r.
Proof.
  unfold rule_for, rule_of, lookup.
  destruct (getRateLimitRule p); try (intros H; exact H). discriminate.
Qed.

(** A third segment that names a member of [Object.prototype] finds that
    member, a function, and not a rule. *)
Example rule_inherited_action :
  getRateLimitRule "/api/auth/toString" = JHost ["toString"] /\
  lookup quiet "/api/auth/toString" = inr (JHost ["toString"]) /\
  rule_of quiet "/api/auth/toString" = None.
Proof. repeat split. Qed.

(** A second segment that names a member of [Object.prototype]: the
    built-in is taken for a service table.  Without a third segment the
    lookup falls back to the global default rule; with one, the host's
    property of that name decides. *)
Lemma rule_inherited_service (E : env) :
  lookup E "/api/constructor" = inr (rule_obj rule_default) /\
  lookup E "/api/constructor/name"
  = match host_prop E ["constructor"; "name"] with
    | HostTruthy => inr (JHost ["constructor"; "name"])
    | HostFalsy => inr (rule_obj rule_default)
    | HostThrows => inl (TypeError "")
    end.
Proof. split; reflexivity. Qed.

Lemma table_bounds (r : RateLimitRule) :
  In r all_rules -> 60000 <= windowMs r /\ 3 <= maxRequests r.
Proof.
  cbn. intros H.
  repeat (destruct H as [<-|H]; [cbn; lia|]). destruct H.
Qed.

(** ** Circuit-breaker proxy *)

(** While the breaker is open the wrapper never hands the request to the
    proxy, whatever the state of the response. *)
Lemma open_breaker_never_proxies (serviceName : string) (b : breaker)
  (req : request) (headersSent : bool) (now : Z) (s : string) (h : bool) :
  isWebSocket req = false -> opened b = true ->
  ~ In (CallProxy s h) (createCircuitBreakerProxy serviceName b req headersSent now).
Proof.
  intros Hws Hopen. unfold createCircuitBreakerProxy. rewrite Hws, Hopen.
  destruct headersSent; cbn; intuition discriminate.
Qed.

(** A breaker that is not open lets the request through to the proxy. *)
Lemma closed_breaker_proxies (serviceName : string) (b : breaker)
  (req : request) (headersSent : bool) (now : Z) :
  isWebSocket req = false -> opened b = false ->
  createCircuitBreakerProxy serviceName b req headersSent now
  = [CallProxy serviceName true].
Proof.
  intros Hws Hopen. unfold createCircuitBreakerProxy.
  rewrite Hws, Hopen. reflexivity.
Qed.

(** C3: for a request that is not a WebSocket upgrade, dispatched while the
    service's breaker is open, the wrapper answers at once with status 503 and
    the fallback payload (success false, error SERVICE_UNAVAILABLE, the
    service name, a timestamp) and does nothing else: the proxy, which alone
    talks to the upstream, is not invoked.  The response is the one Express
    hands to the middleware, with no headers sent yet. *)
Theorem open_breaker_fast_fails (serviceName : string) (b : breaker)
  (req : request) (now : Z) :
  isWebSocket req = false ->
  opened b = true ->
  exists payload,
    createCircuitBreakerProxy serviceName b req false now = [Send 503 payload] /\
    get_prop payload "success" = JBool false /\
    get_prop payload "error" = JStr "SERVICE_UNAVAILABLE" /\
    get_prop payload "service" = JStr serviceName /\
    get_prop payload "timestamp" = JIso now /\
    forall s h,
      ~ In (CallProxy s h) (createCircuitBreakerProxy serviceName b req false now).
Proof.
  intros Hws Hopen. exists (createFallbackResponse serviceName now).
  repeat split; try reflexivity.
  - unfold createCircuitBreakerProxy. rewrite Hws, Hopen. reflexivity.
  - intros s h. apply open_breaker_never_proxies; assumption.
Qed.

Lemma open_breaker_fast_fails_witness :
  exists payload,
    createCircuitBreakerProxy "auth" (mkBreaker true false)
      (plain_request "/api/auth/login") false 1700000000000
    = [Send 503 payload] /\
    get_prop payload "success" = JBool false /\
    get_prop payload "error" = JStr "SERVICE_UNAVAILABLE" /\
    get_prop payload "service" = JStr "auth" /\
    get_prop payload "timestamp" = JIso 1700000000000 /\
    forall s h,
      ~ In (CallProxy s h)
          (createCircuitBreakerProxy "auth" (mkBreaker true false)
             (plain_request "/api/auth/login") false 1700000000000).
Proof.
  apply (open_breaker_fast_fails "auth" (mkBreaker true false)
           (plain_request "/api/auth/login") 1700000000000); reflexivity.
Defined.

(** ** GraphQL routing *)

Lemma mentions_comment_operation (req : request) :
  mentions comment_operations (body_query req) = true ->
  looks_like_comment req = true.
Proof.
  unfold mentions, comment_operations, looks_like_comment. cbn [existsb].
  generalize (body_query req) as q. intros q H.
  repeat match type of H with
         | (_ || _) = true => apply orb_true_iff in H; destruct H as [H|H]
         end;
    try discriminate H; rewrite H; cbn [orb];
    repeat rewrite orb_true_r; reflexivity.
Qed.

Lemma no_keyword_no_comment (req : request) :
  mentions comment_keywords (body_query req) = false ->
  includes "comment" (toLowerCase (body_operationName req)) = false ->
  looks_like_comment req = false.
Proof.
  unfold mentions, comment_keywords, looks_like_comment. cbn [existsb].
  generalize (body_query req) as q. intros q H Hop.
  rewrite Hop, orb_false_r. rewrite orb_false_r in H.
  repeat match type of H with
         | (_ || _) = false =>
             let H' := fresh in
             apply orb_false_iff in H; destruct H as [H' H]; rewrite H'
         end.
  rewrite H. reflexivity.
Qed.

Lemma graphql_url_not_notifications (u : string) :
  String.prefix "/graphql" u = true ->
  String.prefix "/notifications/socket.io" u = false.
Proof.
  destruct u as [|c1 [|c2 u]]; cbn -[ascii_dec]; try discriminate.
  - destruct (ascii_dec "/" c1); discriminate.
  - destruct (ascii_dec "/" c1); [|discriminate].
    destruct (ascii_dec "g" c2); [|discriminate].
    subst c2. intros _. destruct (ascii_dec "n" "g"); [discriminate|reflexivity].
Qed.

(** C4, as stated, fails: a request body that contains a post-domain
    operation and no comment-domain operation is handed to the comment
    upstream when its operation name contains the word comment. *)
Lemma post_operation_routed_to_comment :
  isWebSocket posts_with_comment_count = false /\
  mentions post_operations (body_query posts_with_comment_count) = true /\
  mentions comment_operations (body_query posts_with_comment_count) = false /\
  graphql_route posts_with_comment_count = commentGraphQLHttpProxy /\
  graphql_handler (mkBreaker false false) (mkBreaker false false)
    posts_with_comment_count false 1700000000000 = Forwarded CommentService.
Proof. repeat split; vm_compute; reflexivity. Qed.

(** C4 (amended): on the shared GraphQL path a WebSocket upgrade is always
    handed to the comment upstream, by the route and by the server's upgrade
    handler; a parsed body whose query mentions a comment-domain operation
    is always handed to the comment upstream; a body whose query mentions a
    post-domain operation is handed to the post upstream provided that the
    query contains none of the routing keywords and the operation name does
    not contain [comment] in any letter case. *)
Theorem graphql_routing (req : request) :
  (isWebSocket req = true -> graphql_route req = commentGraphQLWsProxy) /\
  (isWebSocket req = true -> String.prefix "/graphql" (url req) = true ->
   on_upgrade req = Upgraded CommentService) /\
  (isWebSocket req = false ->
   mentions comment_operations (body_query req) = true ->
   graphql_route req = commentGraphQLHttpProxy) /\
  (isWebSocket req = false ->
   mentions post_operations (body_query req) = true ->
   mentions comment_keywords (body_query req) = false ->
   includes "comment" (toLowerCase (body_operationName req)) = false ->
   graphql_route req = postGraphQLHttpProxy).
Proof.
  unfold graphql_route, on_upgrade. repeat split.
  - intros ->. reflexivity.
  - intros -> Hurl.
    rewrite (graphql_url_not_notifications _ Hurl), Hurl. reflexivity.
  - intros -> Hc. rewrite (mentions_comment_operation _ Hc). reflexivity.
  - intros -> _ Hk Hop. rewrite (no_keyword_no_comment _ Hk Hop). reflexivity.
Qed.

Lemma graphql_routing_witness :
  graphql_route (graphql_request (Some "WebSocket") "" None)
  = commentGraphQLWsProxy /\
  on_upgrade (graphql_request (Some "WebSocket") "" None)
  = Upgraded CommentService /\
  graphql_route
    (graphql_request None "query { getComments(postId: 1) { success } }" None)
  = commentGraphQLHttpProxy /\
  graphql_route
    (graphql_request None "query { getPosts(input: { limit: 10 }) { success } }"
       None)
  = postGraphQLHttpProxy.
Proof.
  pose proof (graphql_routing (graphql_request (Some "WebSocket") "" None))
    as (Hws & Hup & _ & _).
  pose proof (graphql_routing
    (graphql_request None "query { getComments(postId: 1) { success } }" None))
    as (_ & _ & Hc & _).
  pose proof (graphql_routing
    (graphql_request None "query { getPosts(input: { limit: 10 }) { success } }"
       None))
    as (_ & _ & _ & Hp).
  split; [apply Hws; reflexivity|].
  split; [apply Hup; reflexivity|].
  split; [apply Hc; reflexivity|].
  apply Hp; reflexivity.
Defined.

(** With the breakers taken into account: the chosen upstream is the only one
    the request can reach. *)
Lemma graphql_handler_comment (comment post : breaker) (req : request)
  (headersSent : bool) (now : Z) :
  isWebSocket req = false ->
  mentions comment_operations (body_query req) = true ->
  graphql_handler comment post req headersSent now
  = if opened comment
    then (if headersSent then Unhandled
          else Answered 503 (createFallbackResponse "comment" now))
    else Forwarded CommentService.
Proof.
  intros Hws Hc. unfold graphql_handler, graphql_route, createCircuitBreakerProxy.
  rewrite Hws, (mentions_comment_operation _ Hc).
  destruct (opened comment), headersSent; reflexivity.
Qed.

Lemma graphql_handler_post (comment post : breaker) (req : request)
  (headersSent : bool) (now : Z) :
  isWebSocket req = false ->
  looks_like_comment req = false ->
  graphql_handler comment post req headersSent now
  = if opened post
    then (if headersSent then Unhandled
          else Answered 503 (createFallbackResponse "post" now))
    else Forwarded PostService.
Proof.
  intros Hws Hc. unfold graphql_handler, graphql_route, createCircuitBreakerProxy.
  rewrite Hws, Hc. destruct (opened post), headersSent; reflexivity.
Qed.

(** A request with the upgrade header goes to the comment service whatever
    the breakers say. *)
Lemma graphql_handler_upgrade (comment post : breaker) (req : request)
  (headersSent : bool) (now : Z) :
  isWebSocket req = true ->
  graphql_handler comment post req headersSent now = Forwarded CommentService.
Proof.
  intros Hws. unfold graphql_handler, graphql_route. rewrite Hws. reflexivity.
Qed.

Example upgrade_header_any_case :
  isWebSocket (graphql_request (Some "WebSocket") "" None) = true /\
  isWebSocket (graphql_request (Some "websocket") "" None) = true /\
  isWebSocket (graphql_request (Some "h2c") "" None) = false /\
  isWebSocket (graphql_request None "" None) = false.
Proof. repeat split. Qed.

(** ** Store lemmas *)

Lemma live_ttl_at (t : Z) (st : Store) (key : string) (z : gmap string Z) :
  live t (mkEntry z (ttl_at t st key)) = true.
Proof.
  unfold ttl_at, read. destruct (st !! key) as [e|]; [|reflexivity].
  destruct (live t e) eqn:He; [|reflexivity]. exact He.
Qed.

Lemma zset_at_write_same (t : Z) (st : Store) (key : string) (z : gmap string Z) :
  zset_at t (write t st key z) key = z.
Proof.
  unfold write. destruct (decide (z = ∅)) as [->|Hne].
  - unfold zset_at, read. rewrite lookup_delete_eq. reflexivity.
  - unfold zset_at, read. rewrite lookup_insert_eq, live_ttl_at. reflexivity.
Qed.

Lemma write_lookup_other (t : Z) (st : Store) (key key' : string)
  (z : gmap string Z) :
  key <> key' -> write t st key z !! key' = st !! key'.
Proof.
  intros Hne. unfold write. destruct (decide (z = ∅)).
  - apply lookup_delete_ne, Hne.
  - apply lookup_insert_ne, Hne.
Qed.

Lemma insert_write (t : Z) (st : Store) (key : string) (z : gmap string Z)
  (e : entry) :
  <[key := e]> (write t st key z) = <[key := e]> st.
Proof.
  unfold write. destruct (decide (z = ∅)).
  - apply insert_delete_eq.
  - apply insert_insert_eq.
Qed.

Lemma delete_write (t : Z) (st : Store) (key : string) (z : gmap string Z) :
  delete key (write t st key z) = delete key st.
Proof.
  unfold write. destruct (decide (z = ∅)).
  - apply delete_delete_eq.
  - apply delete_insert_eq.
Qed.

(** The four pipelined commands leave the key holding the pruned set plus
    the new member, with a fresh deadline, and report the pruned count. *)
Lemma pipeline_spec (key : string) (now windowStart : Z) (member : string)
  (seconds : Z) (st : Store) :
  let keep := pruned now windowStart st key in
  (pipeline key now windowStart member seconds st).1 !! 1%nat
  = Some (Z.of_nat (size keep)) /\
  (pipeline key now windowStart member seconds st).2
  = if seconds <=? 0 then delete key st
    else <[key := mkEntry (<[member := now]> keep)
                    (Some (now + seconds * 1000))]> st.
Proof.
  intros keep. unfold pipeline. cbn [fst snd].
  change (ZREMRANGEBYSCORE now key 0 windowStart st).2
    with (write now st key keep).
  change (ZCARD now key (write now st key keep)).2
    with (write now st key keep).
  split.
  { unfold ZCARD. cbn [fst snd lookup list_lookup].
    rewrite zset_at_write_same. reflexivity. }
  unfold ZADD. cbn [fst snd]. rewrite zset_at_write_same.
  unfold EXPIRE.
  assert (Hne : <[member := now]> keep <> ∅) by apply insert_non_empty.
  unfold write at 1 2.
  destruct (decide (<[member := now]> keep = ∅)) as [He|_]; [contradiction|].
  unfold read. rewrite lookup_insert_eq, live_ttl_at. cbn [fst snd zs].
  destruct (seconds <=? 0).
  - rewrite !delete_write. reflexivity.
  - rewrite !insert_write. reflexivity.
Qed.

(** ** The runs of the limiter *)

(** Every run of the limiter of a rule, by where the store fails (if at
    all) and by the comparison of the count with the limit. *)
Lemma createRateLimiter_cases (E : env) (rule : RateLimitRule) (req : request)
  (now : Z) (w : world) :
  createRateLimiter E rule req now w =
  if redis_down E (ncalls w)
  then (inr (Next (uncounted_headers rule now)),
        mkWorld (store w) (S (ncalls w)) (S (ndraws w)) (S (nfailed w)))
  else if maxRequests rule <=? window_count E rule req now w then
    if redis_down E (S (ncalls w))
    then (inr (Next []),
          mkWorld (exec_results E rule req now w).2
            (S (S (ncalls w))) (S (ndraws w)) (S (nfailed w)))
    else if redis_down E (S (S (ncalls w)))
    then (inr (Next []),
          mkWorld (exec_results E rule req now w).2
            (S (S (S (ncalls w)))) (S (S (ndraws w))) (S (nfailed w)))
    else (inr (Reply 429
                 (rejected_headers rule now (retry_after E rule req now w))
                 (rejected_payload rule (retry_after E rule req now w))),
          mkWorld (after_zrem E rule req now w)
            (S (S (S (ncalls w)))) (S (S (ndraws w))) (nfailed w))
  else (inr (Next (passed_headers rule now (window_count E rule req now w))),
        mkWorld (exec_results E rule req now w).2
          (S (ncalls w)) (S (ndraws w)) (nfailed w)).
Proof.
  unfold createRateLimiter, try_catch, rateLimiterTry, bind, MathRandom, exec,
    remote, ret.
  cbn [store ncalls ndraws nfailed fst snd].
  destruct (redis_down E (ncalls w)); [reflexivity|].
  cbn [fst snd]. fold (exec_results E rule req now w).
  fold (window_count E rule req now w).
  destruct (maxRequests rule <=? window_count E rule req now w); [|reflexivity].
  cbn [store ncalls ndraws nfailed fst snd].
  destruct (redis_down E (S (ncalls w))); [reflexivity|].
  cbn [store ncalls ndraws nfailed fst snd].
  destruct (redis_down E (S (S (ncalls w)))); reflexivity.
Qed.

(** ** The middleware as mounted *)

Lemma rateLimiterMiddleware_no_rule (E : env) (req : request) (now : Z)
  (v : jsval) (w : world) :
  lookup E (path req) = inr v -> as_rule v = None ->
  rateLimiterMiddleware E req now w = (inr (Next []), after_no_rule E req now w).
Proof.
  intros Hv Hr.
  unfold rateLimiterMiddleware, try_catch, rateLimiterNoRule, bind, MathRandom,
    exec, throw, ret, after_no_rule.
  rewrite Hv, Hr. cbn [store ncalls ndraws nfailed fst snd].
  destruct (redis_down E (ncalls w)); reflexivity.
Qed.

Lemma rateLimiterMiddleware_lookup_throws (E : env) (req : request) (now : Z)
  (e : exn) (w : world) :
  lookup E (path req) = inl e ->
  rateLimiterMiddleware E req now w = (inr (Next []), w).
Proof.
  intros He. unfold rateLimiterMiddleware, try_catch, throw, ret.
  rewrite He. reflexivity.
Qed.

(** Every run of the middleware: the limiter of the looked-up rule, or,
    without a rule, [next()] with nothing set. *)
Lemma rateLimiterMiddleware_cases (E : env) (req : request) (now : Z)
  (w : world) :
  (exists rule,
     rule_of E (path req) = Some rule /\
     rateLimiterMiddleware E req now w = createRateLimiter E rule req now w) \/
  (rule_of E (path req) = None /\
   (rateLimiterMiddleware E req now w = (inr (Next []), w) \/
    rateLimiterMiddleware E req now w
    = (inr (Next []), after_no_rule E req now w))).
Proof.
  destruct (rule_of E (path req)) as [rule|] eqn:Hrule.
  - left. exists rule. split; [reflexivity|].
    apply rateLimiterMiddleware_rule, Hrule.
  - right. split; [reflexivity|]. unfold rule_of in Hrule.
    destruct (lookup E (path req)) as [e|v] eqn:Hv.
    + left. exact (rateLimiterMiddleware_lookup_throws _ _ _ _ _ Hv).
    + right. exact (rateLimiterMiddleware_no_rule _ _ _ _ _ Hv Hrule).
Qed.

Lemma after_no_rule_counters (E : env) (req : request) (now : Z) (w : world) :
  ncalls (after_no_rule E req now w) = S (ncalls w) /\
  nfailed (after_no_rule E req now w)
  = (if redis_down E (ncalls w) then S (nfailed w) else nfailed w).
Proof. unfold after_no_rule. destruct (redis_down E (ncalls w)); split; reflexivity. Qed.

(** ** Failing open *)

(** The limiter of a rule never throws: every path ends in a reply or in
    [next()]. *)
Lemma createRateLimiter_total (E : env) (rule : RateLimitRule) (req : request)
  (now : Z) (w : world) :
  exists o, (createRateLimiter E rule req now w).1 = inr o.
Proof.
  rewrite createRateLimiter_cases.
  repeat match goal with
         | |- context [if ?b then _ else _] => destruct b
         end; eexists; reflexivity.
Qed.

(** Neither does the middleware, whatever the lookup gives. *)
Lemma rateLimiterMiddleware_total (E : env) (req : request) (now : Z)
  (w : world) :
  exists o, (rateLimiterMiddleware E req now w).1 = inr o.
Proof.
  destruct (rateLimiterMiddleware_cases E req now w)
    as [(rule & _ & ->)|[_ [-> | ->]]];
    [apply createRateLimiter_total|eexists; reflexivity..].
Qed.

(** The three round trips of the limiter of a rule, one by one.  A pipeline
    that fails does not throw: the count reads [undefined], the request is
    passed on as if below the limit, and its Remaining header is [NaN]. *)
Lemma exec_failure_admits (E : env) (rule : RateLimitRule) (req : request)
  (now : Z) (w : world) :
  redis_down E (ncalls w) = true ->
  createRateLimiter E rule req now w
  = (inr (Next (uncounted_headers rule now)),
     mkWorld (store w) (S (ncalls w)) (S (ndraws w)) (S (nfailed w))).
Proof. intros H. rewrite createRateLimiter_cases, H. reflexivity. Qed.

(** A command that throws after the pipeline went through: the [catch]
    block calls [next()] and nothing is written. *)
Lemma command_failure_fails_open (E : env) (rule : RateLimitRule)
  (req : request) (now : Z) (w : world) :
  redis_down E (ncalls w) = false ->
  (nfailed w < nfailed (createRateLimiter E rule req now w).2)%nat ->
  (createRateLimiter E rule req now w).1 = inr (Next []).
Proof.
  intros Hexec. rewrite createRateLimiter_cases, Hexec.
  repeat match goal with
         | |- context [if ?b then _ else _] => destruct b
         end; cbn [fst snd nfailed]; intros H; first [reflexivity | lia].
Qed.

(** C5: if any round trip to the store fails while the limiter evaluates a
    request, the request is admitted: the middleware calls [next()], it
    answers nothing itself, and no exception leaves it.  When an awaited
    command throws ([ZRANGE] or [ZREM]; [exec()] does not throw), nothing is
    written to the response at all.  When the pipeline itself fails, the
    request is passed on either with nothing set or, on a path with a rule,
    with the headers of a passed request whose count reads [undefined]. *)
Theorem store_failure_fails_open (E : env) (req : request) (now : Z)
  (w : world) :
  (nfailed w < nfailed (rateLimiterMiddleware E req now w).2)%nat ->
  exists hs,
    (rateLimiterMiddleware E req now w).1 = inr (Next hs) /\
    (redis_down E (ncalls w) = false -> hs = []) /\
    (hs = [] \/
     exists rule, rule_of E (path req) = Some rule /\
                  hs = uncounted_headers rule now).
Proof.
  destruct (rateLimiterMiddleware_cases E req now w)
    as [(rule & Hrule & ->)|[_ [-> | ->]]].
  - destruct (redis_down E (ncalls w)) eqn:Hexec.
    + rewrite (exec_failure_admits _ _ _ _ _ Hexec). intros _.
      eexists. split; [reflexivity|]. split; [discriminate|].
      right. exists rule. split; [exact Hrule|reflexivity].
    + intros H. rewrite (command_failure_fails_open _ _ _ _ _ Hexec H).
      exists []. auto.
  - intros _. exists []. auto.
  - intros _. exists []. auto.
Qed.

Lemma store_failure_fails_open_witness :
  exists hs,
    (rateLimiterMiddleware (fails_at 6) login_request (t0 + 5000)
       five_logins).1 = inr (Next hs) /\
    (redis_down (fails_at 6) (ncalls five_logins) = false -> hs = []) /\
    (hs = [] \/
     exists rule, rule_of (fails_at 6) (path login_request) = Some rule /\
                  hs = uncounted_headers rule (t0 + 5000)).
Proof.
  apply (store_failure_fails_open (fails_at 6) login_request (t0 + 5000)
           five_logins).
  vm_compute. lia.
Defined.

(** The sixth login of [five_logins] when [ZRANGE] throws: the pipeline had
    counted five requests, the rejection is under way, and the request goes
    on with nothing set. *)
Example zrange_failure_on_sixth_login :
  redis_down (fails_at 6) (ncalls five_logins) = false /\
  window_count (fails_at 6) rule_auth_login login_request (t0 + 5000) five_logins
  = 5 /\
  rateLimiterMiddleware (fails_at 6) login_request (t0 + 5000) five_logins
  = (inr (Next []),
     mkWorld (exec_results (fails_at 6) rule_auth_login login_request
                (t0 + 5000) five_logins).2 7 6 1).
Proof. repeat split; vm_compute; reflexivity. Qed.

(** With the store unreachable from the first round trip on. *)
Example unreachable_store_admits :
  (rateLimiterMiddleware store_gone login_request t0 fresh_world).1
  = inr (Next [("X-RateLimit-Limit", JNum 5);
               ("X-RateLimit-Remaining", JNaN);
               ("X-RateLimit-Reset", JIso (t0 + 900000))]).
Proof. reflexivity. Qed.

(** ** Response headers *)

(** C6, as stated, fails: when [ZRANGE] throws while the sixth login of a
    window is being rejected, the [catch] block lets the request go on, and
    the response carries none of the rate-limit headers. *)
Lemma failed_open_response_has_no_headers :
  exists o,
    (rateLimiterMiddleware (fails_at 6) login_request (t0 + 5000)
       five_logins).1 = inr o /\
    header "X-RateLimit-Limit" (outcome_headers o) = None /\
    header "X-RateLimit-Remaining" (outcome_headers o) = None /\
    header "X-RateLimit-Reset" (outcome_headers o) = None.
Proof. exists (Next []). repeat split; vm_compute; reflexivity. Qed.

(** Nor are they set on a path for which the lookup gives no rule, whether
    the store answers or not: the request goes on with nothing set. *)
Lemma no_rule_no_headers (E : env) (req : request) (now : Z) (w : world) :
  rule_of E (path req) = None ->
  (rateLimiterMiddleware E req now w).1 = inr (Next []).
Proof.
  intros Hrule.
  destruct (rateLimiterMiddleware_cases E req now w)
    as [(rule & Hr & _)|[_ [-> | ->]]]; [congruence|reflexivity..].
Qed.

Example no_rule_for_default_windowMs :
  lookup quiet "/api/default/windowMs" = inr (JNum 900000) /\
  rule_of quiet "/api/default/windowMs" = None /\
  (rateLimiterMiddleware quiet (plain_request "/api/default/windowMs") t0
     fresh_world).1 = inr (Next []).
Proof. repeat split; vm_compute; reflexivity. Qed.

(** C6 (amended): on a path for which the lookup gives a rule, and when no
    awaited command ([ZRANGE], [ZREM]) throws, so that no round trip fails
    except possibly the pipeline's, the response carries X-RateLimit-Limit,
    X-RateLimit-Remaining and X-RateLimit-Reset, whether the request is
    passed on or rejected; a rejection has status 429 and carries
    Retry-After as well.  (Remaining is [NaN] when the pipeline failed.) *)
Theorem evaluated_response_headers (E : env) (rule : RateLimitRule)
  (req : request) (now : Z) (w : world) :
  rule_of E (path req) = Some rule ->
  nfailed (rateLimiterMiddleware E req now w).2
  = (if redis_down E (ncalls w) then S (nfailed w) else nfailed w) ->
  exists o,
    (rateLimiterMiddleware E req now w).1 = inr o /\
    header "X-RateLimit-Limit" (outcome_headers o) = Some (JNum (maxRequests rule)) /\
    is_Some (header "X-RateLimit-Remaining" (outcome_headers o)) /\
    header "X-RateLimit-Reset" (outcome_headers o)
    = Some (JIso (now + windowMs rule)) /\
    forall status hs payload,
      o = Reply status hs payload ->
      status = 429 /\ is_Some (header "Retry-After" hs).
Proof.
  intros Hrule.
  rewrite (rateLimiterMiddleware_rule _ _ _ _ _ Hrule).
  rewrite createRateLimiter_cases.
  repeat match goal with
         | |- context [if ?b then _ else _] => destruct b
         end; cbn [fst snd nfailed]; intros H; try lia;
    (eexists; split; [reflexivity|]);
    cbn [outcome_headers]; (split; [reflexivity|]);
    (split; [eexists; reflexivity|]); (split; [reflexivity|]);
    intros status hs payload Ho; inversion Ho; subst;
    split; [reflexivity|eexists; reflexivity].
Qed.

Lemma evaluated_response_headers_witness :
  exists o,
    (rateLimiterMiddleware quiet login_request (t0 + 5000) five_logins).1
    = inr o /\
    header "X-RateLimit-Limit" (outcome_headers o) = Some (JNum 5) /\
    is_Some (header "X-RateLimit-Remaining" (outcome_headers o)) /\
    header "X-RateLimit-Reset" (outcome_headers o)
    = Some (JIso (t0 + 5000 + 900000)) /\
    forall status hs payload,
      o = Reply status hs payload ->
      status = 429 /\ is_Some (header "Retry-After" hs).
Proof.
  apply (evaluated_response_headers quiet rule_auth_login login_request
           (t0 + 5000) five_logins); vm_compute; reflexivity.
Defined.

(** ** Retry-After *)

Lemma zmin_cons (y : string * Z) (l : list (string * Z)) :
  zmin (y :: l)
  = match zmin l with
    | None => Some y
    | Some m => if zless y m then Some y else Some m
    end.
Proof. reflexivity. Qed.

Lemma zmin_elem_of (l : list (string * Z)) (x : string * Z) :
  zmin l = Some x -> x ∈ l.
Proof.
  revert x. induction l as [|y l IH]; intros x; [discriminate|].
  rewrite zmin_cons. destruct (zmin l) as [m|].
  - destruct (zless y m); intros H; injection H as H; subst x.
    + apply list_elem_of_here.
    + apply list_elem_of_further, IH. reflexivity.
  - intros H; injection H as H; subst x. apply list_elem_of_here.
Qed.

Lemma ceil_div_1000_pos (a : Z) : 0 < a -> 0 < ceil_div_1000 a.
Proof. intros H. unfold ceil_div_1000. apply Z.div_str_pos. lia. Qed.

Lemma ceil_div_1000_covers (a : Z) : a <= ceil_div_1000 a * 1000.
Proof. unfold ceil_div_1000. Z.div_mod_to_equations. lia. Qed.

Lemma zset_at_insert_live (t d : Z) (st : Store) (key : string)
  (z : gmap string Z) :
  t < d -> zset_at t (<[key := mkEntry z (Some d)]> st) key = z.
Proof.
  intros H. unfold zset_at, read, live. rewrite lookup_insert_eq. cbn.
  rewrite bool_decide_eq_true_2 by exact H. reflexivity.
Qed.

Lemma zset_at_lookup (t : Z) (st : Store) (key m : string) (s : Z) :
  zset_at t st key !! m = Some s ->
  exists e, st !! key = Some e /\ zs e !! m = Some s.
Proof.
  unfold zset_at, read. destruct (st !! key) as [e|]; [|intros H; discriminate H].
  destruct (live t e); [|intros H; discriminate H]. eauto.
Qed.

Lemma pruned_lookup (now windowStart : Z) (st : Store) (key m : string) (s : Z) :
  pruned now windowStart st key !! m = Some s <->
  zset_at now st key !! m = Some s /\ in_range 0 windowStart s = false.
Proof. unfold pruned. rewrite map_lookup_filter_Some. reflexivity. Qed.

Lemma scores_nonneg_empty : scores_nonneg ∅.
Proof. apply map_Forall_empty. Qed.

Lemma scores_nonneg_insert (st : Store) (key : string) (e : entry) :
  scores_nonneg st ->
  (forall m s, zs e !! m = Some s -> 0 <= s) ->
  scores_nonneg (<[key := e]> st).
Proof.
  intros Hst Hz. apply map_Forall_insert_2; [|exact Hst].
  intros m s Hm. eauto.
Qed.

Lemma scores_nonneg_write (t : Z) (st : Store) (key : string)
  (z : gmap string Z) :
  scores_nonneg st ->
  (forall m s, z !! m = Some s -> 0 <= s) ->
  scores_nonneg (write t st key z).
Proof.
  intros Hst Hz. unfold write. destruct (decide (z = ∅)) as [Hz0|Hz0].
  - apply map_Forall_delete, Hst.
  - apply scores_nonneg_insert; [exact Hst|exact Hz].
Qed.

Lemma exec_results_store (E : env) (rule : RateLimitRule) (req : request)
  (now : Z) (w : world) :
  0 < windowMs rule ->
  let key := rate_key (client_ip req) (path req) in
  (exec_results E rule req now w).2
  = <[key := mkEntry
        (<[nonce now (mathRandom E (ndraws w)) := now]>
           (pruned now (now - windowMs rule) (store w) key))
        (Some (now + ceil_div_1000 (windowMs rule) * 1000))]> (store w).
Proof.
  intros HW key. subst key. unfold exec_results.
  destruct (pipeline_spec (rate_key (client_ip req) (path req)) now
              (now - windowMs rule)
              (nonce now (mathRandom E (ndraws w)))
              (ceil_div_1000 (windowMs rule)) (store w)) as [_ ->].
  pose proof (ceil_div_1000_pos _ HW).
  destruct (Z.leb_spec (ceil_div_1000 (windowMs rule)) 0); [lia|reflexivity].
Qed.

Lemma window_count_spec (E : env) (rule : RateLimitRule) (req : request)
  (now : Z) (w : world) :
  window_count E rule req now w
  = Z.of_nat (size (pruned now (now - windowMs rule) (store w)
                      (rate_key (client_ip req) (path req)))).
Proof.
  unfold window_count, exec_results.
  destruct (pipeline_spec (rate_key (client_ip req) (path req)) now
              (now - windowMs rule) (nonce now (mathRandom E (ndraws w)))
              (ceil_div_1000 (windowMs rule)) (store w)) as [-> _].
  reflexivity.
Qed.

(** The set the rejection path reads after the pipeline. *)
Lemma zset_at_exec_results (E : env) (rule : RateLimitRule) (req : request)
  (now t : Z) (w : world) :
  0 < windowMs rule ->
  t < now + windowMs rule ->
  zset_at t (exec_results E rule req now w).2
    (rate_key (client_ip req) (path req))
  = <[nonce now (mathRandom E (ndraws w)) := now]>
      (pruned now (now - windowMs rule) (store w)
         (rate_key (client_ip req) (path req))).
Proof.
  intros HW Ht. rewrite exec_results_store by exact HW.
  apply zset_at_insert_live.
  pose proof (ceil_div_1000_covers (windowMs rule)). lia.
Qed.

(** C9: every request the limiter rejects gets status 429 and a Retry-After
    strictly greater than 0, for every positive window.  The oldest member
    read after the pipeline is the new member or one that survived the
    pruning, so its score lies less than [windowMs] before [now]; with no
    member at all the fallback [ceil(windowMs/1000)] is used.  Stored scores
    are timestamps, hence not negative. *)
Theorem retry_after_positive (E : env) (rule : RateLimitRule) (req : request)
  (now : Z) (w w' : world) (status : Z) (hs : list (string * jsval))
  (payload : jsval) :
  0 < windowMs rule ->
  scores_nonneg (store w) ->
  createRateLimiter E rule req now w = (inr (Reply status hs payload), w') ->
  status = 429 /\
  exists retryAfter,
    header "Retry-After" hs = Some (JNum retryAfter) /\ 0 < retryAfter.
Proof.
  intros HW Hnn. rewrite createRateLimiter_cases.
  repeat match goal with
         | |- context [if ?b then _ else _] => destruct b
         end; intros H; try discriminate H.
  assert (status = 429) as -> by congruence.
  assert (hs = rejected_headers rule now (retry_after E rule req now w))
    as -> by congruence.
  clear H. split; [reflexivity|]. eexists. split; [reflexivity|].
  unfold retry_after, ZRANGE_0_0. cbn [fst].
  rewrite zset_at_exec_results by lia.
  destruct (zmin _) as [[m0 s0]|] eqn:Hmin; [|apply ceil_div_1000_pos, HW].
  apply zmin_elem_of, elem_of_map_to_list in Hmin.
  apply ceil_div_1000_pos.
  apply lookup_insert_Some in Hmin as [[_ <-]|[_ Hkeep]]; [lia|].
  apply pruned_lookup in Hkeep as [Hin Hrange].
  apply zset_at_lookup in Hin as (e & He & Hm).
  pose proof (Hnn _ _ He _ _ Hm) as Hs0. cbn beta in Hs0.
  unfold in_range in Hrange.
  apply andb_false_iff in Hrange as [Hr|Hr]; lia.
Qed.

Lemma retry_after_positive_witness :
  429 = 429 /\
  exists retryAfter,
    header "Retry-After" (rejected_headers rule_auth_login (t0 + 5000) 895)
    = Some (JNum retryAfter) /\ 0 < retryAfter.
Proof.
  apply (retry_after_positive quiet rule_auth_login login_request (t0 + 5000)
           five_logins
           (createRateLimiter quiet rule_auth_login login_request (t0 + 5000)
              five_logins).2
           429 (rejected_headers rule_auth_login (t0 + 5000) 895)
           (rejected_payload rule_auth_login 895)).
  - reflexivity.
  - apply (bool_decide_eq_true_1 (scores_nonneg (store five_logins))).
    vm_compute. reflexivity.
  - vm_compute. reflexivity.
Defined.

(** The limiter keeps scores non-negative when the clock is. *)
Lemma pruned_nonneg (now windowStart : Z) (st : Store) (key : string) :
  scores_nonneg st ->
  map_Forall (fun _ s => 0 <= s) (pruned now windowStart st key).
Proof.
  intros Hst m s Hm. apply pruned_lookup in Hm as [Hm _].
  apply zset_at_lookup in Hm as (e & He & Hm). exact (Hst _ _ He _ _ Hm).
Qed.

Lemma exec_results_nonneg (E : env) (rule : RateLimitRule) (req : request)
  (now : Z) (w : world) :
  0 <= now -> scores_nonneg (store w) ->
  scores_nonneg (exec_results E rule req now w).2.
Proof.
  intros Hnow Hst. unfold exec_results.
  destruct (pipeline_spec (rate_key (client_ip req) (path req)) now
              (now - windowMs rule) (nonce now (mathRandom E (ndraws w)))
              (ceil_div_1000 (windowMs rule)) (store w)) as [_ ->].
  destruct (ceil_div_1000 (windowMs rule) <=? 0);
    [apply map_Forall_delete, Hst|].
  apply scores_nonneg_insert; [exact Hst|]. cbn [zs].
  intros m s Hm. apply lookup_insert_Some in Hm as [[_ <-]|[_ Hm]]; [exact Hnow|].
  exact (pruned_nonneg _ _ _ _ Hst _ _ Hm).
Qed.

Lemma createRateLimiter_scores_nonneg (E : env) (rule : RateLimitRule)
  (req : request) (now : Z) (w : world) :
  0 <= now -> scores_nonneg (store w) ->
  scores_nonneg (store (createRateLimiter E rule req now w).2).
Proof.
  intros Hnow Hst.
  pose proof (exec_results_nonneg E rule req now w Hnow Hst) as Hex.
  rewrite createRateLimiter_cases.
  repeat match goal with
         | |- context [if ?b then _ else _] => destruct b
         end; cbn [snd store]; try assumption.
  unfold after_zrem, ZREM. cbn [snd].
  apply scores_nonneg_write; [exact Hex|].
  intros m s Hm. apply lookup_delete_Some in Hm as [_ Hm].
  apply zset_at_lookup in Hm as (e & He & Hm). exact (Hex _ _ He _ _ Hm).
Qed.

(** ** Rejection and the attempted rollback *)

Lemma nonce_inj (now : Z) (r r' : string) : nonce now r = nonce now r' -> r = r'.
Proof.
  unfold nonce. intros H.
  apply (inj (String.append (pretty now))) in H.
  apply (inj (String.append "-")) in H. exact H.
Qed.

(** The member added by a rejected request is still in the set afterwards
    whenever the second [Math.random()] draw differs from the first: [ZREM]
    is given a nonce that was never stored. *)
Lemma rejected_member_stays (E : env) (rule : RateLimitRule) (req : request)
  (now : Z) (w w' : world) (status : Z) (hs : list (string * jsval))
  (payload : jsval) :
  0 < windowMs rule ->
  mathRandom E (ndraws w) <> mathRandom E (S (ndraws w)) ->
  createRateLimiter E rule req now w = (inr (Reply status hs payload), w') ->
  zset_at now (store w') (rate_key (client_ip req) (path req))
    !! nonce now (mathRandom E (ndraws w)) = Some now.
Proof.
  intros HW Hdraws. rewrite createRateLimiter_cases.
  repeat match goal with
         | |- context [if ?b then _ else _] => destruct b
         end; intros H; try discriminate H.
  assert (w' = mkWorld (after_zrem E rule req now w) (S (S (S (ncalls w))))
                 (S (S (ndraws w))) (nfailed w)) as -> by congruence.
  clear H. cbn [store]. unfold after_zrem, ZREM. cbn [snd].
  rewrite zset_at_write_same, zset_at_exec_results by lia.
  rewrite lookup_delete_ne by (intros Heq; apply Hdraws; symmetry; exact (nonce_inj _ _ _ Heq)).
  apply lookup_insert_eq.
Qed.

(** C1: the rejection path does not restore the stored set.  After five
    logins within the window the sixth request is rejected with 429, yet the
    member the pipeline added for it is still stored afterwards: the set has
    grown from five to six members, because the nonce passed to [ZREM] is
    built from a fresh [Math.random()] draw and names no stored member. *)
Theorem rejected_attempt_is_not_rolled_back :
  let key := rate_key (client_ip login_request) (path login_request) in
  let before := zset_at (t0 + 5000) (store five_logins) key in
  let run := createRateLimiter quiet rule_auth_login login_request
               (t0 + 5000) five_logins in
  let after := zset_at (t0 + 5000) (store run.2) key in
  run.1 = inr (Reply 429 (rejected_headers rule_auth_login (t0 + 5000) 895)
                 (rejected_payload rule_auth_login 895)) /\
  size before = 5%nat /\
  before !! nonce (t0 + 5000) (mathRandom quiet 5) = None /\
  after !! nonce (t0 + 5000) (mathRandom quiet 5) = Some (t0 + 5000) /\
  size after = 6%nat /\
  after <> before.
Proof.
  cbv zeta. repeat split; try (vm_compute; reflexivity).
  intros H. apply (f_equal size) in H. vm_compute in H. discriminate H.
Qed.

(** ** Status and reset *)

Lemma getRateLimitStatus_cases (E : env) (rule : RateLimitRule) (now : Z)
  (ip : option string) (path : string) (w : world) :
  let key := rate_key ip path in
  let st' := write now (store w) key
               (pruned now (now - windowMs rule) (store w) key) in
  getRateLimitStatus E rule now ip path w =
  if redis_down E (ncalls w)
  then (inr None, mkWorld (store w) (S (ncalls w)) (ndraws w) (S (nfailed w)))
  else if redis_down E (S (ncalls w))
  then (inr None, mkWorld st' (S (S (ncalls w))) (ndraws w) (S (nfailed w)))
  else (inr (Some (mkStatus ip path (maxRequests rule)
                     (Z.of_nat (size (zset_at now st' key)))
                     (Z.max 0 (maxRequests rule
                               - Z.of_nat (size (zset_at now st' key))))
                     (JIso (now + windowMs rule)))),
        mkWorld st' (S (S (ncalls w))) (ndraws w) (nfailed w)).
Proof.
  intros key st'.
  unfold getRateLimitStatus, try_catch, bind, remote, ret.
  cbn [store ncalls ndraws nfailed fst snd].
  destruct (redis_down E (ncalls w)); [reflexivity|].
  cbn [store ncalls ndraws nfailed fst snd].
  destruct (redis_down E (S (ncalls w))); reflexivity.
Qed.

Lemma ttl_at_write (t : Z) (st : Store) (key : string) (z : gmap string Z) :
  z <> ∅ -> ttl_at t (write t st key z) key = ttl_at t st key.
Proof.
  intros Hz. unfold write. destruct (decide (z = ∅)) as [|_]; [contradiction|].
  unfold ttl_at at 1. unfold read.
  rewrite lookup_insert_eq, live_ttl_at. reflexivity.
Qed.

(** The store a status call leaves behind: the one it found, or that one
    with the key pruned. *)
Lemma getRateLimitStatus_store (E : env) (rule : RateLimitRule) (now : Z)
  (ip : option string) (path : string) (w : world) :
  let key := rate_key ip path in
  store (getRateLimitStatus E rule now ip path w).2 = store w \/
  store (getRateLimitStatus E rule now ip path w).2
  = write now (store w) key (pruned now (now - windowMs rule) (store w) key).
Proof.
  intros key. rewrite getRateLimitStatus_cases.
  repeat match goal with
         | |- context [if ?b then _ else _] => destruct b
         end; cbn [snd store]; auto.
Qed.

(** C7, as stated, fails: a status call prunes.  The set stored for the key
    holds two members before the call and one after it. *)
Lemma status_prunes_stale_members :
  let key := rate_key (ip login_request) (path login_request) in
  let now := t0 + 950000 in
  let run := getRateLimitStatus quiet rule_auth_login now (ip login_request)
               (path login_request) two_logins in
  size (zset_at now (store two_logins) key) = 2%nat /\
  size (zset_at now (store run.2) key) = 1%nat /\
  zset_at now (store run.2) key <> zset_at now (store two_logins) key /\
  store run.2 <> store two_logins.
Proof.
  cbv zeta. split; [vm_compute; reflexivity|].
  split; [vm_compute; reflexivity|]. split.
  - intros H. apply (f_equal size) in H. vm_compute in H. discriminate H.
  - intros H.
    apply (f_equal (fun st =>
             size (zset_at (t0 + 950000) st
                     (rate_key (ip login_request) (path login_request))))) in H.
    vm_compute in H. discriminate H.
Qed.

(** C7 (amended): a status call adds no member, changes no score, touches
    no other key and leaves the deadline of a key that keeps members as it
    was; it removes from the key's set the members whose score lies in
    [[0, now - windowMs]] and nothing else, so that when no stored member is
    that old the set is the same before and after. *)
Theorem status_only_prunes (E : env) (rule : RateLimitRule) (now : Z)
  (ip : option string) (path : string) (w : world) :
  let key := rate_key ip path in
  let before := zset_at now (store w) key in
  let after := zset_at now (store (getRateLimitStatus E rule now ip path w).2) key in
  (forall m s, after !! m = Some s -> before !! m = Some s) /\
  (forall m s, before !! m = Some s ->
     in_range 0 (now - windowMs rule) s = false -> after !! m = Some s) /\
  (forall k, k <> key ->
     store (getRateLimitStatus E rule now ip path w).2 !! k = store w !! k) /\
  (after <> ∅ ->
   ttl_at now (store (getRateLimitStatus E rule now ip path w).2) key
   = ttl_at now (store w) key) /\
  ((forall m s, before !! m = Some s ->
      in_range 0 (now - windowMs rule) s = false) ->
   after = before).
Proof.
  intros key before after. subst after.
  destruct (getRateLimitStatus_store E rule now ip path w) as [-> | ->];
    fold key; fold before.
  - repeat split; auto.
  - rewrite zset_at_write_same. split; [|split; [|split; [|split]]].
    + intros m s Hm. apply pruned_lookup in Hm as [Hm _]. exact Hm.
    + intros m s Hm Hr. apply pruned_lookup. split; assumption.
    + intros k Hk. apply write_lookup_other. congruence.
    + apply ttl_at_write.
    + intros Hall. apply map_filter_id. intros m s Hm. cbn. eauto.
Qed.

Lemma status_only_prunes_witness :
  let key := rate_key (ip login_request) (path login_request) in
  let now := t0 + 4500 in
  zset_at now
    (store (getRateLimitStatus quiet rule_auth_login now (ip login_request)
              (path login_request) five_logins).2) key
  = zset_at now (store five_logins) key.
Proof.
  cbv zeta.
  apply (status_only_prunes quiet rule_auth_login (t0 + 4500)
           (ip login_request) (path login_request) five_logins).
  apply (bool_decide_eq_true_1
           (map_Forall
              (fun (_ : string) (s : Z) =>
                 in_range 0 (t0 + 4500 - windowMs rule_auth_login) s = false)
              (zset_at (t0 + 4500) (store five_logins)
                 (rate_key (ip login_request) (path login_request))))).
  vm_compute. reflexivity.
Defined.

(** What a status call reports when the store answers: the limit, the
    count of the pruned set, what is left of the limit, and the reset time. *)
Lemma status_report_values (E : env) (rule : RateLimitRule) (now : Z)
  (ip : option string) (path : string) (w : world) :
  redis_down E (ncalls w) = false ->
  redis_down E (S (ncalls w)) = false ->
  let current :=
    Z.of_nat (size (pruned now (now - windowMs rule) (store w)
                      (rate_key ip path))) in
  (getRateLimitStatus E rule now ip path w).1
  = inr (Some (mkStatus ip path (maxRequests rule) current
                 (Z.max 0 (maxRequests rule - current))
                 (JIso (now + windowMs rule)))).
Proof.
  intros H1 H2 current. rewrite getRateLimitStatus_cases, H1, H2.
  cbn [fst]. rewrite zset_at_write_same. reflexivity.
Qed.

(** A status call whose store throws reports [null]. *)
Lemma status_null_on_failure (E : env) (rule : RateLimitRule) (now : Z)
  (ip : option string) (path : string) (w : world) :
  (nfailed w < nfailed (getRateLimitStatus E rule now ip path w).2)%nat ->
  (getRateLimitStatus E rule now ip path w).1 = inr None.
Proof.
  rewrite getRateLimitStatus_cases.
  repeat match goal with
         | |- context [if ?b then _ else _] => destruct b
         end; cbn [fst snd nfailed]; intros H; first [reflexivity | lia].
Qed.

(** A reset never throws: it answers [true], or [false] when the store
    threw. *)
Lemma resetRateLimit_total (E : env) (now : Z) (ip : option string)
  (path : string) (w : world) :
  exists ok, (resetRateLimit E now ip path w).1 = inr ok.
Proof.
  unfold resetRateLimit, try_catch, bind, remote, ret.
  destruct (String.eqb path "*");
    destruct (redis_down E (ncalls w)); cbn [fst snd ncalls];
    repeat match goal with
           | |- context [if ?b then _ else _] => destruct b; cbn [fst snd ncalls]
           end; eexists; reflexivity.
Qed.

Lemma resetRateLimit_key (E : env) (now : Z) (ip : option string)
  (path : string) (w : world) :
  String.eqb path "*" = false ->
  redis_down E (ncalls w) = false ->
  resetRateLimit E now ip path w
  = (inr true,
     mkWorld (delete (rate_key ip path) (store w)) (S (ncalls w)) (ndraws w)
       (nfailed w)).
Proof.
  intros Hpath Hup. unfold resetRateLimit, try_catch, bind, remote, ret.
  rewrite Hpath, Hup. reflexivity.
Qed.

Lemma slash_path_is_not_star (p : string) :
  String.prefix "/" p = true -> String.eqb p "*" = false.
Proof.
  destruct p as [|c p]; [discriminate|]. cbn -[ascii_dec].
  destruct (ascii_dec "/" c) as [<-|]; [|discriminate]. reflexivity.
Qed.

Lemma zset_at_delete (t : Z) (st : Store) (key : string) :
  zset_at t (delete key st) key = ∅.
Proof. unfold zset_at, read. rewrite lookup_delete_eq. reflexivity. Qed.

(** On a path for which the lookup gives a rule, a reset of (identity,
    path) followed by a request of the same identity on the same path: the
    reset succeeds, the request finds an empty window (count 0), is passed
    on, and reports the whole quota less the request itself,
    [maxRequests - 1].  The path is a request path (it starts with a slash)
    and the store answers both round trips. *)
Lemma reset_restores_quota (E : env) (rule : RateLimitRule) (req : request)
  (now now' : Z) (w : world) :
  String.prefix "/" (path req) = true ->
  rule_of E (path req) = Some rule ->
  redis_down E (ncalls w) = false ->
  redis_down E (S (ncalls w)) = false ->
  let reset := resetRateLimit E now (client_ip req) (path req) w in
  reset.1 = inr true /\
  window_count E rule req now' reset.2 = 0 /\
  (rateLimiterMiddleware E req now' reset.2).1
  = inr (Next (passed_headers rule now' 0)) /\
  header "X-RateLimit-Remaining" (passed_headers rule now' 0)
  = Some (JNum (maxRequests rule - 1)).
Proof.
  intros Hslash Hrule Hup1 Hup2 reset. subst reset.
  rewrite (resetRateLimit_key E now _ _ w (slash_path_is_not_star _ Hslash) Hup1).
  cbn [fst snd].
  destruct (table_bounds rule (rule_of_in_table _ _ _ Hrule)) as [_ Hmax].
  set (w1 := mkWorld _ _ _ _).
  assert (Hcount : window_count E rule req now' w1 = 0).
  { rewrite window_count_spec. unfold pruned. subst w1. cbn [store].
    rewrite zset_at_delete, map_filter_empty. reflexivity. }
  split; [reflexivity|]. split; [exact Hcount|]. split.
  - rewrite (rateLimiterMiddleware_rule _ _ _ _ _ Hrule).
    rewrite createRateLimiter_cases, Hcount. subst w1. cbn [ncalls].
    rewrite Hup2. destruct (Z.leb_spec (maxRequests rule) 0); [lia|].
    reflexivity.
  - cbn. do 2 f_equal. lia.
Qed.

Example reset_restores_login_quota :
  let reset := resetRateLimit quiet (t0 + 6000) (client_ip login_request)
                 (path login_request) five_logins in
  reset.1 = inr true /\
  window_count quiet rule_auth_login login_request (t0 + 6001) reset.2 = 0 /\
  (rateLimiterMiddleware quiet login_request (t0 + 6001) reset.2).1
  = inr (Next (passed_headers rule_auth_login (t0 + 6001) 0)) /\
  header "X-RateLimit-Remaining" (passed_headers rule_auth_login (t0 + 6001) 0)
  = Some (JNum (5 - 1)).
Proof.
  apply (reset_restores_quota quiet rule_auth_login login_request (t0 + 6000)
           (t0 + 6001) five_logins); reflexivity.
Qed.

(** C8: a reset does not restore the quota on every path.  For
    ["/api/default/windowMs"] the lookup gives the number 900000 (claim
    C10), from which no limit can be read.  The reset of (client, path)
    succeeds and leaves the key empty, and the request that follows is
    passed on without X-RateLimit-Remaining or any other rate-limit header:
    no quota is reported, where [maxRequests - 1] is expected.  The store
    answers every round trip. *)
Theorem reset_on_path_without_rule :
  let req := plain_request "/api/default/windowMs" in
  let key := rate_key (client_ip req) (path req) in
  let reset := resetRateLimit quiet t0 (client_ip req) (path req) five_logins in
  let run := rateLimiterMiddleware quiet req (t0 + 1) reset.2 in
  getRateLimitRule (path req) = JNum 900000 /\
  rule_of quiet (path req) = None /\
  reset.1 = inr true /\
  zset_at (t0 + 1) (store reset.2) key = ∅ /\
  run.1 = inr (Next []) /\
  forall o, run.1 = inr o ->
    header "X-RateLimit-Limit" (outcome_headers o) = None /\
    header "X-RateLimit-Remaining" (outcome_headers o) = None.
Proof.
  cbv zeta.
  do 5 (split; [vm_compute; reflexivity|]).
  intros o Ho. vm_compute in Ho.
  assert (o = Next []) as -> by congruence. split; reflexivity.
Qed.

(** ** Six logins within one window *)

Lemma pruned_window (rule : RateLimitRule) (key : string) (a now : Z)
  (z : gmap string Z) (w : world) :
  window_holds rule key a z w ->
  a <= now < a + windowMs rule ->
  pruned now (now - windowMs rule) (store w) key = z.
Proof.
  intros [Hview Hscores] Hnow. unfold pruned. rewrite (Hview now Hnow).
  apply map_filter_id. intros m s Hm. cbn.
  pose proof (Hscores m s Hm) as Hs. cbn beta in Hs.
  unfold in_range. apply andb_false_iff. right. lia.
Qed.

(** A request below the limit is passed on, and its nonce joins the set. *)
Lemma pass_step (E : env) (rule : RateLimitRule) (req : request) (a now : Z)
  (z : gmap string Z) (w : world) :
  (forall n, redis_down E n = false) ->
  window_holds rule (rate_key (client_ip req) (path req)) a z w ->
  a <= now < a + windowMs rule ->
  Z.of_nat (size z) < maxRequests rule ->
  exists w',
    createRateLimiter E rule req now w
    = (inr (Next (passed_headers rule now (Z.of_nat (size z)))), w') /\
    ndraws w' = S (ndraws w) /\
    window_holds rule (rate_key (client_ip req) (path req)) a
      (<[nonce now (mathRandom E (ndraws w)) := now]> z) w'.
Proof.
  intros Hup Hwin Hnow Hsize.
  pose proof (pruned_window _ _ _ _ _ _ Hwin Hnow) as Hpruned.
  eexists. rewrite createRateLimiter_cases, Hup, window_count_spec, Hpruned.
  destruct (Z.leb_spec (maxRequests rule) (Z.of_nat (size z))); [lia|].
  split; [reflexivity|]. split; [reflexivity|]. split.
  - intros t Ht. cbn [store].
    rewrite zset_at_exec_results, Hpruned by lia. reflexivity.
  - apply map_Forall_insert_2; [lia|]. apply Hwin.
Qed.

(** A request at the limit is rejected with 429 and Remaining 0. *)
Lemma reject_step (E : env) (rule : RateLimitRule) (req : request) (a now : Z)
  (z : gmap string Z) (w : world) :
  (forall n, redis_down E n = false) ->
  window_holds rule (rate_key (client_ip req) (path req)) a z w ->
  a <= now < a + windowMs rule ->
  maxRequests rule <= Z.of_nat (size z) ->
  exists retryAfter w',
    createRateLimiter E rule req now w
    = (inr (Reply 429 (rejected_headers rule now retryAfter)
              (rejected_payload rule retryAfter)), w').
Proof.
  intros Hup Hwin Hnow Hsize.
  pose proof (pruned_window _ _ _ _ _ _ Hwin Hnow) as Hpruned.
  do 2 eexists. rewrite createRateLimiter_cases, !Hup, window_count_spec, Hpruned.
  destruct (Z.leb_spec (maxRequests rule) (Z.of_nat (size z))); [|lia].
  reflexivity.
Qed.

Lemma serve_cons (E : env) (rule : RateLimitRule) (req : request) (now : Z)
  (rest : list (request * Z)) (w w' w'' : world) (o : outcome)
  (os : list outcome) :
  createRateLimiter E rule req now w = (inr o, w') ->
  serve E rule rest w' = (inr os, w'') ->
  serve E rule ((req, now) :: rest) w = (inr (o :: os), w'').
Proof.
  intros Hhead Hrest. cbn [serve]. unfold bind at 1. rewrite Hhead.
  unfold bind. rewrite Hrest. reflexivity.
Qed.

(** An empty key at the start of the window stays empty until written. *)
Lemma window_holds_empty (rule : RateLimitRule) (key : string) (a : Z)
  (w : world) :
  zset_at a (store w) key = ∅ -> window_holds rule key a ∅ w.
Proof.
  intros Hempty. split; [|apply map_Forall_empty].
  intros t [Ht _]. revert Hempty. unfold zset_at, read, live.
  destruct (store w !! key) as [e|]; [|reflexivity].
  destruct (expireAt e) as [d|]; [|auto].
  destruct (bool_decide_reflect (a < d)), (bool_decide_reflect (t < d));
    auto; lia.
Qed.

Ltac fresh_nonce :=
  rewrite ?lookup_insert_ne by assumption; apply lookup_empty.

Ltac count_members :=
  rewrite ?map_size_insert_None by fresh_nonce; rewrite map_size_empty.

(** C2: under the login rule (window 900000 ms, at most 5 requests), six
    requests of one identity on the login path, served one after the other
    within one window on a key that holds nothing at the start: the first
    five are passed on and the sixth is rejected with status 429 and
    X-RateLimit-Remaining 0.  The store answers every round trip and the
    nonces of the requests are distinct. *)
Theorem six_logins_in_a_window (E : env) (req : request) (w : world)
  (t1 t2 t3 t4 t5 t6 : Z) :
  path req = "/api/auth/login" ->
  (forall n, redis_down E n = false) ->
  zset_at t1 (store w) (rate_key (client_ip req) (path req)) = ∅ ->
  t1 <= t2 <= t3 -> t3 <= t4 <= t5 -> t5 <= t6 < t1 + 900000 ->
  NoDup [nonce t1 (mathRandom E (ndraws w));
         nonce t2 (mathRandom E (S (ndraws w)));
         nonce t3 (mathRandom E (S (S (ndraws w))));
         nonce t4 (mathRandom E (S (S (S (ndraws w)))));
         nonce t5 (mathRandom E (S (S (S (S (ndraws w))))))] ->
  rule_for (path req) = Some (mkRule 900000 5 (message rule_auth_login)) /\
  exists retryAfter,
    (serve E rule_auth_login
       [(req, t1); (req, t2); (req, t3); (req, t4); (req, t5); (req, t6)] w).1
    = inr [Next (passed_headers rule_auth_login t1 0);
           Next (passed_headers rule_auth_login t2 1);
           Next (passed_headers rule_auth_login t3 2);
           Next (passed_headers rule_auth_login t4 3);
           Next (passed_headers rule_auth_login t5 4);
           Reply 429 (rejected_headers rule_auth_login t6 retryAfter)
             (rejected_payload rule_auth_login retryAfter)] /\
    header "X-RateLimit-Remaining"
      (rejected_headers rule_auth_login t6 retryAfter) = Some (JNum 0).
Proof.
  intros Hpath Hup Hempty H123 H345 H56 Hnd.
  split; [rewrite Hpath; reflexivity|].
  repeat match goal with
         | H : NoDup (_ :: _) |- _ => apply NoDup_cons in H as [? H]
         end.
  repeat match goal with
         | H : _ ∉ _ :: _ |- _ => apply not_elem_of_cons in H as [? H]
         end.
  set (key := rate_key (client_ip req) (path req)) in *.
  assert (HW : windowMs rule_auth_login = 900000) by reflexivity.
  assert (HM : maxRequests rule_auth_login = 5) by reflexivity.
  pose proof (window_holds_empty rule_auth_login key t1 w Hempty) as Hwin0.
  destruct (pass_step E rule_auth_login req t1 t1 _ w Hup Hwin0)
    as (w1 & Hrun1 & Hd1 & Hwin1); [lia|rewrite map_size_empty; lia|].
  rewrite map_size_empty in Hrun1.
  destruct (pass_step E rule_auth_login req t1 t2 _ w1 Hup Hwin1)
    as (w2 & Hrun2 & Hd2 & Hwin2); [lia|count_members; lia|].
  revert Hrun2; count_members; intros Hrun2.
  rewrite Hd1 in Hwin2.
  destruct (pass_step E rule_auth_login req t1 t3 _ w2 Hup Hwin2)
    as (w3 & Hrun3 & Hd3 & Hwin3); [lia|count_members; lia|].
  revert Hrun3; count_members; intros Hrun3.
  rewrite Hd2, Hd1 in Hwin3.
  destruct (pass_step E rule_auth_login req t1 t4 _ w3 Hup Hwin3)
    as (w4 & Hrun4 & Hd4 & Hwin4); [lia|count_members; lia|].
  revert Hrun4; count_members; intros Hrun4.
  rewrite Hd3, Hd2, Hd1 in Hwin4.
  destruct (pass_step E rule_auth_login req t1 t5 _ w4 Hup Hwin4)
    as (w5 & Hrun5 & Hd5 & Hwin5); [lia|count_members; lia|].
  revert Hrun5; count_members; intros Hrun5.
  rewrite Hd4, Hd3, Hd2, Hd1 in Hwin5.
  destruct (reject_step E rule_auth_login req t1 t6 _ w5 Hup Hwin5)
    as (retryAfter & w6 & Hrun6); [lia|count_members; lia|].
  exists retryAfter. split.
  - erewrite (serve_cons _ _ _ _ _ _ _ _ _ _ Hrun1); [reflexivity|].
    erewrite (serve_cons _ _ _ _ _ _ _ _ _ _ Hrun2); [reflexivity|].
    erewrite (serve_cons _ _ _ _ _ _ _ _ _ _ Hrun3); [reflexivity|].
    erewrite (serve_cons _ _ _ _ _ _ _ _ _ _ Hrun4); [reflexivity|].
    erewrite (serve_cons _ _ _ _ _ _ _ _ _ _ Hrun5); [reflexivity|].
    erewrite (serve_cons _ _ _ _ _ _ _ _ _ _ Hrun6); reflexivity.
  - reflexivity.
Qed.

Lemma six_logins_in_a_window_witness :
  rule_for (path login_request) = Some (mkRule 900000 5 (message rule_auth_login)) /\
  exists retryAfter,
    (serve quiet rule_auth_login
       [(login_request, t0); (login_request, t0 + 1000);
        (login_request, t0 + 2000); (login_request, t0 + 3000);
        (login_request, t0 + 4000); (login_request, t0 + 5000)] fresh_world).1
    = inr [Next (passed_headers rule_auth_login t0 0);
           Next (passed_headers rule_auth_login (t0 + 1000) 1);
           Next (passed_headers rule_auth_login (t0 + 2000) 2);
           Next (passed_headers rule_auth_login (t0 + 3000) 3);
           Next (passed_headers rule_auth_login (t0 + 4000) 4);
           Reply 429 (rejected_headers rule_auth_login (t0 + 5000) retryAfter)
             (rejected_payload rule_auth_login retryAfter)] /\
    header "X-RateLimit-Remaining"
      (rejected_headers rule_auth_login (t0 + 5000) retryAfter) = Some (JNum 0).
Proof.
  apply (six_logins_in_a_window quiet login_request fresh_world
           t0 (t0 + 1000) (t0 + 2000) (t0 + 3000) (t0 + 4000) (t0 + 5000)).
  - reflexivity.
  - intros n. reflexivity.
  - reflexivity.
  - lia.
  - lia.
  - lia.
  - apply (bool_decide_eq_true_1
             (NoDup [nonce t0 (mathRandom quiet 0);
                     nonce (t0 + 1000) (mathRandom quiet 1);
                     nonce (t0 + 2000) (mathRandom quiet 2);
                     nonce (t0 + 3000) (mathRandom quiet 3);
                     nonce (t0 + 4000) (mathRandom quiet 4)])).
    vm_compute. reflexivity.
Defined.


(** * Further properties of the modelled code *)

(** ** Rule lookup, continued *)

Lemma split_nonempty (sep : Ascii.ascii) (s : string) : split sep s <> [].
Proof.
  destruct s as [|c s]; cbn -[Ascii.eqb]; [discriminate|].
  destruct (Ascii.eqb c sep); [discriminate|].
  destruct (split sep s); discriminate.
Qed.

Lemma append_nil_l (s : string) : EmptyString +:+ s = s.
Proof. reflexivity. Qed.

Lemma append_cons (c : Ascii.ascii) (s t : string) :
  String c s +:+ t = String c (s +:+ t).
Proof. reflexivity. Qed.

Lemma split_snoc (sep : Ascii.ascii) (s : string) :
  split sep (s +:+ String sep EmptyString)
  = (split sep s ++ [EmptyString])%list.
Proof.
  induction s as [|c s IH].
  - rewrite append_nil_l. cbn -[Ascii.eqb]. rewrite Ascii.eqb_refl. reflexivity.
  - rewrite append_cons. cbn -[Ascii.eqb].
    destruct (Ascii.eqb c sep); [rewrite IH; reflexivity|].
    rewrite IH. pose proof (split_nonempty sep s) as Hne.
    destruct (split sep s); [contradiction|reflexivity].
Qed.

Lemma path_parts_trailing_slash (p : string) :
  path_parts (p +:+ "/") = path_parts p.
Proof.
  unfold path_parts. rewrite split_snoc, List.filter_app. cbn.
  apply app_nil_r.
Qed.

Lemma append_slash_differs (p : string) : p +:+ "/" <> p.
Proof.
  induction p as [|c p IH]; [discriminate|].
  rewrite append_cons. intros H. apply IH. congruence.
Qed.

Lemma rate_key_path_inj (i : option string) (p q : string) :
  rate_key i p = rate_key i q -> p = q.
Proof.
  unfold rate_key. intros H.
  apply (inj (String.append "rate_limit:")) in H.
  apply (inj (String.append (interpolate i))) in H.
  apply (inj (String.append ":")) in H. exact H.
Qed.

(** X1: a trailing slash does not change the rule a path is limited by, but
    it changes the key the requests are counted under: the lookup drops empty
    segments, the key is built from the path as it was sent. *)
Theorem trailing_slash_same_rule_other_key (E : env) (i : option string)
  (p : string) :
  getRateLimitRule (p +:+ "/") = getRateLimitRule p /\
  lookup E (p +:+ "/") = lookup E p /\
  rate_key i (p +:+ "/") <> rate_key i p.
Proof.
  assert (Hsame : getRateLimitRule (p +:+ "/") = getRateLimitRule p).
  { unfold getRateLimitRule. rewrite path_parts_trailing_slash. reflexivity. }
  split; [exact Hsame|]. split.
  - unfold lookup. rewrite Hsame. reflexivity.
  - intros H. apply rate_key_path_inj in H. exact (append_slash_differs p H).
Qed.

(** X2: whatever rule the lookup yields, on whatever host, is a usable
    one: its window is a whole number of seconds between one minute and one
    hour, and its limit lies between 3 and 100 requests. *)
Theorem looked_up_rule_bounds (E : env) (p : string) (r : RateLimitRule) :
  rule_for p = Some r \/ rule_of E p = Some r ->
  60000 <= windowMs r <= 3600000 /\
  windowMs r mod 1000 = 0 /\
  3 <= maxRequests r <= 100.
Proof.
  intros H.
  assert (Hin : In r all_rules)
    by (destruct H as [H|H];
        [exact (rule_for_in_table _ _ H)|exact (rule_of_in_table _ _ _ H)]).
  cbn in Hin.
  repeat (destruct Hin as [<-|Hin]; [cbn; repeat split; lia|]). destruct Hin.
Qed.

Lemma looked_up_rule_bounds_witness :
  60000 <= windowMs rule_media_upload <= 3600000 /\
  windowMs rule_media_upload mod 1000 = 0 /\
  3 <= maxRequests rule_media_upload <= 100.
Proof.
  apply (looked_up_rule_bounds quiet "/api/media/upload" rule_media_upload).
  left. reflexivity.
Defined.


(** ** The limiter, continued *)

Lemma zmin_le (l : list (string * Z)) (x y : string * Z) :
  zmin l = Some x -> y ∈ l -> x.2 <= y.2.
Proof.
  revert x. induction l as [|z l IH]; intros x Hmin Hy.
  - discriminate Hmin.
  - rewrite zmin_cons in Hmin. apply elem_of_cons in Hy.
    destruct (zmin l) as [m|] eqn:Hl.
    + specialize (IH m eq_refl). unfold zless in Hmin.
      destruct (Z.ltb_spec z.2 m.2) as [Hlt|Hge]; cbn [orb] in Hmin.
      * injection Hmin as <-. destruct Hy as [->|Hy]; [lia|].
        specialize (IH Hy). lia.
      * destruct (Z.eqb_spec z.2 m.2) as [Heq|Hne]; cbn [andb] in Hmin.
        -- destruct (String.ltb z.1 m.1); injection Hmin as <-;
             (destruct Hy as [->|Hy]; [lia|]); specialize (IH Hy); lia.
        -- injection Hmin as <-.
           destruct Hy as [->|Hy]; [lia|]. exact (IH Hy).
    + injection Hmin as <-. destruct Hy as [->|Hy]; [lia|].
      destruct l as [|z' l]; [apply elem_of_nil in Hy; destruct Hy|].
      rewrite zmin_cons in Hl. destruct (zmin l) as [m'|];
        [destruct (zless z' m')|]; discriminate Hl.
Qed.

Lemma ceil_div_1000_mono (a b : Z) : a <= b -> ceil_div_1000 a <= ceil_div_1000 b.
Proof. intros H. unfold ceil_div_1000. apply Z.div_le_mono; lia. Qed.

Lemma exec_results_other_key (E : env) (rule : RateLimitRule) (req : request)
  (now : Z) (w : world) (k : string) :
  k <> rate_key (client_ip req) (path req) ->
  (exec_results E rule req now w).2 !! k = store w !! k.
Proof.
  intros Hk. unfold exec_results.
  destruct (pipeline_spec (rate_key (client_ip req) (path req)) now
              (now - windowMs rule) (nonce now (mathRandom E (ndraws w)))
              (ceil_div_1000 (windowMs rule)) (store w)) as [_ ->].
  destruct (ceil_div_1000 (windowMs rule) <=? 0).
  - apply lookup_delete_ne. congruence.
  - apply lookup_insert_ne. congruence.
Qed.

(** X3: the admission rule of the middleware.  When the store answers: on
    a path for which the lookup gives a rule, a request is passed on exactly
    when fewer than [maxRequests] members of its key are left after the
    members scored in [[0, now - windowMs]] are dropped, and is rejected
    with 429 otherwise; a passed request reports [maxRequests] less that
    count less one as remaining.  On a path for which the lookup gives no
    rule every request is passed on, with no header, whatever the count. *)
Theorem admission_by_window_count (E : env) (req : request) (now : Z)
  (w : world) :
  redis_down E (ncalls w) = false ->
  redis_down E (S (ncalls w)) = false ->
  redis_down E (S (S (ncalls w))) = false ->
  (forall rule,
     rule_of E (path req) = Some rule ->
     let n := Z.of_nat (size (pruned now (now - windowMs rule) (store w)
                                (rate_key (client_ip req) (path req)))) in
     (n < maxRequests rule ->
      (rateLimiterMiddleware E req now w).1
      = inr (Next (passed_headers rule now n)) /\
      header "X-RateLimit-Remaining" (passed_headers rule now n)
      = Some (JNum (maxRequests rule - n - 1))) /\
     (maxRequests rule <= n ->
      exists retryAfter,
        (rateLimiterMiddleware E req now w).1
        = inr (Reply 429 (rejected_headers rule now retryAfter)
                 (rejected_payload rule retryAfter)))) /\
  (rule_of E (path req) = None ->
   (rateLimiterMiddleware E req now w).1 = inr (Next [])).
Proof.
  intros H1 H2 H3. split; [|apply no_rule_no_headers].
  intros rule Hrule n.
  rewrite (rateLimiterMiddleware_rule _ _ _ _ _ Hrule).
  rewrite createRateLimiter_cases, H1, H2, H3, window_count_spec. fold n.
  destruct (Z.leb_spec (maxRequests rule) n); split; intros Hn; try lia.
  - eexists. reflexivity.
  - split; [reflexivity|]. cbn. do 2 f_equal. lia.
Qed.

Lemma admission_by_window_count_witness :
  (rateLimiterMiddleware quiet login_request (t0 + 5000) five_logins).1
  = inr (Reply 429 (rejected_headers rule_auth_login (t0 + 5000) 895)
           (rejected_payload rule_auth_login 895)) /\
  (rateLimiterMiddleware quiet login_request t0 fresh_world).1
  = inr (Next (passed_headers rule_auth_login t0 0)) /\
  (rateLimiterMiddleware quiet (plain_request "/api/default/windowMs") t0
     five_logins).1 = inr (Next []).
Proof.
  pose proof (admission_by_window_count quiet login_request (t0 + 5000)
                five_logins eq_refl eq_refl eq_refl) as [Hrule _].
  destruct (Hrule rule_auth_login eq_refl) as [_ Hrej].
  pose proof (admission_by_window_count quiet login_request t0 fresh_world
                eq_refl eq_refl eq_refl) as [Hrule' _].
  destruct (Hrule' rule_auth_login eq_refl) as [Hpass _].
  pose proof (admission_by_window_count quiet
                (plain_request "/api/default/windowMs") t0 five_logins
                eq_refl eq_refl eq_refl) as [_ Hnone].
  split; [|split].
  - destruct Hrej as [ra Hra]; [vm_compute; discriminate|].
    vm_compute. reflexivity.
  - apply Hpass. vm_compute. reflexivity.
  - apply Hnone. reflexivity.
Defined.

(** X4: evaluating a request reads and writes the key of its own
    (identity, path) only: every other key of the store is left as it was,
    whether the request is passed on, rejected, or let through on a store
    failure. *)
Theorem limiter_touches_own_key_only (E : env) (rule : RateLimitRule)
  (req : request) (now : Z) (w : world) (k : string) :
  k <> rate_key (client_ip req) (path req) ->
  store (createRateLimiter E rule req now w).2 !! k = store w !! k.
Proof.
  intros Hk. rewrite createRateLimiter_cases.
  repeat match goal with
         | |- context [if ?b then _ else _] => destruct b
         end; cbn [snd store];
    try reflexivity; try (apply exec_results_other_key; exact Hk).
  unfold after_zrem, ZREM. cbn [snd].
  rewrite write_lookup_other by congruence.
  apply exec_results_other_key. exact Hk.
Qed.

Lemma limiter_touches_own_key_only_witness :
  store (createRateLimiter quiet rule_default (plain_request "/health")
           (t0 + 5000) five_logins).2
    !! rate_key (client_ip login_request) (path login_request)
  = store five_logins !! rate_key (client_ip login_request) (path login_request).
Proof.
  apply (limiter_touches_own_key_only quiet rule_default
           (plain_request "/health") (t0 + 5000) five_logins).
  vm_compute. discriminate.
Defined.

(** X6: a request that was evaluated and passed on is remembered for its
    whole window: at every instant before [now + windowMs] the key is alive,
    holds the request's nonce with score [now], and expires at
    [now + 1000 * ceil(windowMs / 1000)]. *)
Theorem passed_request_is_counted_for_the_window (E : env)
  (rule : RateLimitRule) (req : request) (now t : Z) (w w' : world)
  (hs : list (string * jsval)) :
  0 < windowMs rule ->
  createRateLimiter E rule req now w = (inr (Next hs), w') ->
  nfailed w' = nfailed w ->
  t < now + windowMs rule ->
  zset_at t (store w') (rate_key (client_ip req) (path req))
    !! nonce now (mathRandom E (ndraws w)) = Some now /\
  ttl_at t (store w') (rate_key (client_ip req) (path req))
  = Some (now + ceil_div_1000 (windowMs rule) * 1000).
Proof.
  intros HW. rewrite createRateLimiter_cases.
  repeat match goal with
         | |- context [if ?b then _ else _] => destruct b
         end; intros H Hthrown Ht; try discriminate H;
    try (assert (Hw : nfailed w' = S (nfailed w)) by
           (injection H as _ <-; reflexivity); lia).
  assert (w' = mkWorld (exec_results E rule req now w).2 (S (ncalls w))
                 (S (ndraws w)) (nfailed w)) as -> by congruence.
  cbn [store]. rewrite zset_at_exec_results by assumption.
  split; [apply lookup_insert_eq|].
  rewrite exec_results_store by exact HW.
  unfold ttl_at, read, live. rewrite lookup_insert_eq. cbn.
  pose proof (ceil_div_1000_covers (windowMs rule)).
  rewrite bool_decide_eq_true_2 by lia. reflexivity.
Qed.

Lemma passed_request_is_counted_for_the_window_witness :
  zset_at (t0 + 899999)
    (store (createRateLimiter quiet rule_auth_login login_request t0
              fresh_world).2)
    (rate_key (client_ip login_request) (path login_request))
    !! nonce t0 (mathRandom quiet 0) = Some t0 /\
  ttl_at (t0 + 899999)
    (store (createRateLimiter quiet rule_auth_login login_request t0
              fresh_world).2)
    (rate_key (client_ip login_request) (path login_request))
  = Some (t0 + ceil_div_1000 (windowMs rule_auth_login) * 1000).
Proof.
  apply (passed_request_is_counted_for_the_window quiet rule_auth_login
           login_request t0 (t0 + 899999) fresh_world
           (createRateLimiter quiet rule_auth_login login_request t0
              fresh_world).2
           (passed_headers rule_auth_login t0 0)).
  - reflexivity.
  - vm_compute. reflexivity.
  - reflexivity.
  - vm_compute. reflexivity.
Defined.

(** X7: the Retry-After of a rejection never exceeds the window rounded up
    to seconds, and the [retryAfter] field of the body is the header's
    value: the oldest member read is never younger than the member the
    request itself just added. *)
Theorem retry_after_at_most_window (E : env) (rule : RateLimitRule)
  (req : request) (now : Z) (w w' : world) (status : Z)
  (hs : list (string * jsval)) (payload : jsval) :
  0 < windowMs rule ->
  createRateLimiter E rule req now w = (inr (Reply status hs payload), w') ->
  exists retryAfter,
    header "Retry-After" hs = Some (JNum retryAfter) /\
    get_prop payload "retryAfter" = JNum retryAfter /\
    retryAfter <= ceil_div_1000 (windowMs rule).
Proof.
  intros HW. rewrite createRateLimiter_cases.
  repeat match goal with
         | |- context [if ?b then _ else _] => destruct b
         end; intros H; try discriminate H.
  assert (hs = rejected_headers rule now (retry_after E rule req now w))
    as -> by congruence.
  assert (payload = rejected_payload rule (retry_after E rule req now w))
    as -> by congruence.
  clear H. eexists. split; [reflexivity|]. split; [reflexivity|].
  unfold retry_after, ZRANGE_0_0. cbn [fst].
  rewrite zset_at_exec_results by lia.
  destruct (zmin _) as [[m0 s0]|] eqn:Hmin; [|lia].
  apply ceil_div_1000_mono.
  pose proof (zmin_le _ _ (nonce now (mathRandom E (ndraws w)), now) Hmin) as Hle.
  cbn [snd] in Hle. enough (s0 <= now) by lia. apply Hle.
  apply elem_of_map_to_list, lookup_insert_eq.
Qed.

Lemma retry_after_at_most_window_witness :
  exists retryAfter,
    header "Retry-After" (rejected_headers rule_auth_login (t0 + 5000) 895)
    = Some (JNum retryAfter) /\
    get_prop (rejected_payload rule_auth_login 895) "retryAfter"
    = JNum retryAfter /\
    retryAfter <= ceil_div_1000 (windowMs rule_auth_login).
Proof.
  apply (retry_after_at_most_window quiet rule_auth_login login_request
           (t0 + 5000) five_logins
           (createRateLimiter quiet rule_auth_login login_request (t0 + 5000)
              five_logins).2
           429 (rejected_headers rule_auth_login (t0 + 5000) 895)
           (rejected_payload rule_auth_login 895)).
  - reflexivity.
  - vm_compute. reflexivity.
Defined.


(** ** Keys *)

Lemma colon_path_head (b q q' : string) :
  has_char "/" b = false -> String.prefix "/" q = true ->
  String ":" q = b +:+ String ":" q' -> b = "" /\ q = q'.
Proof.
  intros Hb Hq H. destruct b as [|c b].
  - rewrite append_nil_l in H. split; [reflexivity|]. congruence.
  - exfalso. rewrite append_cons in H. injection H as Hc Hq'. subst q.
    destruct b as [|d b].
    + rewrite append_nil_l in Hq. discriminate Hq.
    + rewrite append_cons in Hq. cbn -[ascii_dec] in Hq.
      destruct (ascii_dec "/" d) as [<-|]; [|discriminate Hq].
      cbn in Hb. rewrite orb_true_r in Hb. discriminate Hb.
Qed.

Lemma append_colon_path_inj (a a' p p' : string) :
  has_char "/" a = false -> has_char "/" a' = false ->
  String.prefix "/" p = true -> String.prefix "/" p' = true ->
  a +:+ String ":" p = a' +:+ String ":" p' -> a = a' /\ p = p'.
Proof.
  revert a'. induction a as [|c a IH]; intros a' Ha Ha' Hp Hp' H.
  - rewrite append_nil_l in H.
    destruct (colon_path_head a' p p' Ha' Hp H) as [-> ->]. split; reflexivity.
  - destruct a' as [|c' a'].
    + rewrite append_nil_l in H. symmetry in H.
      destruct (colon_path_head _ p' p Ha Hp' H) as [Hnil _]. discriminate Hnil.
    + rewrite !append_cons in H. injection H as -> H.
      cbn in Ha, Ha'. apply orb_false_iff in Ha as [_ Ha].
      apply orb_false_iff in Ha' as [_ Ha'].
      destruct (IH a' Ha Ha' Hp Hp' H) as [-> ->]. split; reflexivity.
Qed.

(** X5: distinct (identity, path) pairs are counted under distinct keys,
    provided the identities contain no slash (as addresses do) and the
    paths start with one (as request paths do). *)
Theorem rate_key_injective (i i' : option string) (p p' : string) :
  has_char "/" (interpolate i) = false ->
  has_char "/" (interpolate i') = false ->
  String.prefix "/" p = true ->
  String.prefix "/" p' = true ->
  rate_key i p = rate_key i' p' ->
  interpolate i = interpolate i' /\ p = p'.
Proof.
  intros Hi Hi' Hp Hp' H. unfold rate_key in H.
  apply (inj (String.append "rate_limit:")) in H.
  change (":" +:+ p) with (String ":" p) in H.
  change (":" +:+ p') with (String ":" p') in H.
  exact (append_colon_path_inj _ _ _ _ Hi Hi' Hp Hp' H).
Qed.

Lemma rate_key_injective_witness :
  interpolate (Some "203.0.113.7") = interpolate (Some "203.0.113.7") /\
  "/api/auth/login" = "/api/auth/login".
Proof.
  apply (rate_key_injective (Some "203.0.113.7") (Some "203.0.113.7")
           "/api/auth/login" "/api/auth/login"); reflexivity.
Defined.

(** Without the proviso two pairs can share a key. *)
Example rate_key_collision :
  rate_key (Some "a:/b") "/c" = rate_key (Some "a") "/b:/c".
Proof. reflexivity. Qed.


(** ** Reset and status, continued *)

Lemma foldr_delete_lookup (keys : list string) (st : Store) (k : string) :
  foldr delete st keys !! k = if decide (k ∈ keys) then None else st !! k.
Proof.
  induction keys as [|k' keys IH]; cbn [foldr].
  - destruct (decide (k ∈ [])) as [Hin|_]; [|reflexivity].
    apply elem_of_nil in Hin. destruct Hin.
  - destruct (decide (k' = k)) as [->|Hne].
    + rewrite lookup_delete_eq.
      destruct (decide (k ∈ k :: keys)) as [_|Hnin]; [reflexivity|].
      exfalso. apply Hnin, list_elem_of_here.
    + rewrite lookup_delete_ne by exact Hne. rewrite IH.
      destruct (decide (k ∈ keys)) as [Hin|Hnin];
        destruct (decide (k ∈ k' :: keys)) as [Hin'|Hnin']; try reflexivity.
      * exfalso. apply Hnin', list_elem_of_further, Hin.
      * exfalso. apply elem_of_cons in Hin' as [->|Hin']; [apply Hne|apply Hnin];
          auto.
Qed.

Lemma KEYS_elem_of (glob : string -> string -> bool) (t : Z) (pattern : string)
  (st : Store) (k : string) :
  k ∈ (KEYS glob t pattern st).1 <->
  is_Some (read t st k) /\ glob pattern k = true.
Proof.
  unfold KEYS. cbn [fst]. rewrite list_elem_of_In, List.filter_In.
  rewrite andb_true_iff, bool_decide_eq_true. split.
  - intros [_ H]. exact H.
  - intros [[e He] Hg]. split; [|eauto].
    apply list_elem_of_In. change (k ∈ (map_to_list st).*1).
    unfold read in He. destruct (st !! k) as [e'|] eqn:Hk; [|discriminate He].
    apply list_elem_of_fmap. exists (k, e'). split; [reflexivity|].
    apply elem_of_map_to_list, Hk.
Qed.

(** X8: a reset never throws and tells whether it went through: it
    returns [true] when no round trip to the store threw and [false] when
    one did. *)
Theorem reset_reports_store_failure (E : env) (now : Z) (ip : option string)
  (path : string) (w : world) :
  (resetRateLimit E now ip path w).1
  = inr (bool_decide (nfailed (resetRateLimit E now ip path w).2 = nfailed w)).
Proof.
  unfold resetRateLimit, try_catch, bind, remote, ret.
  destruct (String.eqb path "*"); destruct (redis_down E (ncalls w));
    cbn [fst snd ncalls nfailed];
    repeat match goal with
           | |- context [if ?b then _ else _] =>
               destruct b; cbn [fst snd ncalls nfailed]
           end;
    f_equal; symmetry;
    first [apply bool_decide_eq_true_2; reflexivity
          | apply bool_decide_eq_false_2; lia].
Qed.

(** X9: a reset of every path of an identity ([path = "*"]) deletes the
    live keys that the store's matcher accepts for the pattern
    [rate_limit:<ip>:*] and leaves every other key as it was. *)
Theorem reset_all_deletes_matching_keys (E : env) (now : Z)
  (ip : option string) (w : world) (k : string) :
  redis_down E (ncalls w) = false ->
  redis_down E (S (ncalls w)) = false ->
  (resetRateLimit E now ip "*" w).1 = inr true /\
  store (resetRateLimit E now ip "*" w).2 !! k
  = if bool_decide (is_Some (read now (store w) k))
       && redis_glob E ("rate_limit:" +:+ interpolate ip +:+ ":*") k
    then None else store w !! k.
Proof.
  intros H1 H2.
  pose proof (KEYS_elem_of (redis_glob E) now
                ("rate_limit:" +:+ interpolate ip +:+ ":*") (store w) k) as Hk.
  unfold resetRateLimit, try_catch, bind, remote, ret.
  cbn [String.eqb Ascii.eqb Bool.eqb fst snd ncalls store]. rewrite H1.
  cbn [fst snd ncalls store].
  set (keys := (KEYS _ _ _ _).1) in *.
  assert (Hstore : (KEYS (redis_glob E) now
                      ("rate_limit:" +:+ interpolate ip +:+ ":*") (store w)).2
                   = store w) by reflexivity.
  rewrite Hstore.
  assert (Hcond : bool_decide (is_Some (read now (store w) k))
                  && redis_glob E ("rate_limit:" +:+ interpolate ip +:+ ":*") k
                  = bool_decide (k ∈ keys)).
  { destruct (decide (k ∈ keys)) as [Hin|Hnin].
    - rewrite (bool_decide_eq_true_2 _ Hin). apply Hk in Hin as [Hs Hg].
      rewrite (bool_decide_eq_true_2 _ Hs), Hg. reflexivity.
    - rewrite (bool_decide_eq_false_2 _ Hnin).
      apply andb_false_iff.
      destruct (redis_glob E _ k) eqn:Hg; [left|right; reflexivity].
      apply bool_decide_eq_false_2. intros Hs. apply Hnin, Hk. auto. }
  rewrite Hcond.
  destruct keys as [|k0 keys'] eqn:Hkeys.
  - cbn [length Nat.ltb Nat.leb fst snd store]. split; [reflexivity|].
    rewrite bool_decide_eq_false_2; [reflexivity|].
    intros Hin. apply elem_of_nil in Hin. exact Hin.
  - cbn [length Nat.ltb Nat.leb fst snd ncalls store]. rewrite H2.
    cbn [fst snd store DEL]. split; [reflexivity|].
    rewrite foldr_delete_lookup.
    destruct (decide (k ∈ k0 :: keys')) as [Hin|Hnin].
    + rewrite (bool_decide_eq_true_2 _ Hin). reflexivity.
    + rewrite (bool_decide_eq_false_2 _ Hnin). reflexivity.
Qed.

Lemma reset_all_deletes_matching_keys_witness :
  (resetRateLimit prefix_matching (t0 + 6000) (Some "203.0.113.7") "*"
     five_logins).1 = inr true /\
  store (resetRateLimit prefix_matching (t0 + 6000) (Some "203.0.113.7") "*"
           five_logins).2
    !! rate_key (Some "203.0.113.7") "/api/auth/login"
  = None.
Proof.
  pose proof (reset_all_deletes_matching_keys prefix_matching (t0 + 6000)
                (Some "203.0.113.7") five_logins
                (rate_key (Some "203.0.113.7") "/api/auth/login")
                eq_refl eq_refl) as [Hok Hkey].
  split; [exact Hok|]. rewrite Hkey. vm_compute. reflexivity.
Defined.

(** X10: a status call never throws, and it answers [null] exactly when a
    round trip to the store failed.  In every other case it answers a
    report: the identity and path asked for, the limit of the rule, the
    number of members left after the pruning, what is left of the limit (not
    below 0), and the reset time [now + windowMs]. *)
Theorem status_null_iff_store_failed (E : env) (rule : RateLimitRule)
  (now : Z) (ip : option string) (path : string) (w : world) :
  let r := getRateLimitStatus E rule now ip path w in
  let current :=
    Z.of_nat (size (pruned now (now - windowMs rule) (store w)
                      (rate_key ip path))) in
  (r.1 = inr None /\ (nfailed w < nfailed r.2)%nat) \/
  (r.1 = inr (Some (mkStatus ip path (maxRequests rule) current
                      (Z.max 0 (maxRequests rule - current))
                      (JIso (now + windowMs rule)))) /\
   nfailed r.2 = nfailed w).
Proof.
  intros r current. subst r. rewrite getRateLimitStatus_cases.
  repeat match goal with
         | |- context [if ?b then _ else _] => destruct b
         end; cbn [fst snd nfailed];
    [left; split; [reflexivity|lia]..|].
  right. rewrite zset_at_write_same. split; reflexivity.
Qed.

Lemma pruned_idempotent (t windowStart : Z) (st : Store) (key : string) :
  pruned t windowStart (write t st key (pruned t windowStart st key)) key
  = pruned t windowStart st key.
Proof.
  unfold pruned at 1. rewrite zset_at_write_same.
  apply map_filter_id. intros m s Hm. cbn.
  apply pruned_lookup in Hm as [_ Hm]. exact Hm.
Qed.

Lemma write_write (t : Z) (st : Store) (key : string) (z : gmap string Z) :
  write t (write t st key z) key z = write t st key z.
Proof.
  destruct (decide (z = ∅)) as [->|Hz].
  - unfold write. destruct (decide (∅ = ∅)) as [_|Hne]; [|contradiction].
    apply delete_delete_eq.
  - unfold write at 1. destruct (decide (z = ∅)) as [|_]; [contradiction|].
    rewrite ttl_at_write by exact Hz.
    unfold write. destruct (decide (z = ∅)) as [|_]; [contradiction|].
    apply insert_insert_eq.
Qed.

(** X12: asking for the status twice at the same instant is the same as
    asking once: when the store answers, the second call reports what the
    first reported and leaves the store as the first left it. *)
Theorem status_twice_is_status_once (E : env) (rule : RateLimitRule)
  (now : Z) (ip : option string) (path : string) (w : world) :
  (forall n, redis_down E n = false) ->
  let first := getRateLimitStatus E rule now ip path w in
  let second := getRateLimitStatus E rule now ip path first.2 in
  second.1 = first.1 /\ store second.2 = store first.2.
Proof.
  intros Hup first second. subst second first.
  rewrite (getRateLimitStatus_cases E rule now ip path w), !Hup.
  cbn [fst snd]. rewrite getRateLimitStatus_cases, !Hup.
  cbn [fst snd store]. rewrite pruned_idempotent, write_write.
  split; reflexivity.
Qed.

Lemma status_twice_is_status_once_witness :
  let first := getRateLimitStatus quiet rule_auth_login (t0 + 950000)
                 (Some "203.0.113.7") "/api/auth/login" two_logins in
  let second := getRateLimitStatus quiet rule_auth_login (t0 + 950000)
                  (Some "203.0.113.7") "/api/auth/login" first.2 in
  second.1 = first.1 /\ store second.2 = store first.2.
Proof.
  apply (status_twice_is_status_once quiet rule_auth_login (t0 + 950000)
           (Some "203.0.113.7") "/api/auth/login" two_logins).
  intros n. reflexivity.
Defined.

(** X11: the status agrees with the header.  Right after a request was
    evaluated and passed on, a status call for the same identity and path at
    the same instant counts one request more than the limiter counted and
    reports as remaining the value the limiter put in
    [X-RateLimit-Remaining].  The request's nonce is new to the set. *)
Theorem status_agrees_with_remaining_header (E : env) (rule : RateLimitRule)
  (req : request) (now : Z) (w : world) :
  (forall n, redis_down E n = false) ->
  0 < windowMs rule ->
  let key := rate_key (client_ip req) (path req) in
  let n := Z.of_nat (size (pruned now (now - windowMs rule) (store w) key)) in
  pruned now (now - windowMs rule) (store w) key
    !! nonce now (mathRandom E (ndraws w)) = None ->
  n < maxRequests rule ->
  let passed := createRateLimiter E rule req now w in
  exists report,
    passed.1 = inr (Next (passed_headers rule now n)) /\
    (getRateLimitStatus E rule now (client_ip req) (path req) passed.2).1
    = inr (Some report) /\
    st_limit report = maxRequests rule /\
    st_current report = n + 1 /\
    header "X-RateLimit-Remaining" (passed_headers rule now n)
    = Some (JNum (st_remaining report)).
Proof.
  intros Hup HW key n Hfresh Hn passed. subst passed key.
  assert (Hpr : pruned now (now - windowMs rule)
                  (exec_results E rule req now w).2
                  (rate_key (client_ip req) (path req))
                = <[nonce now (mathRandom E (ndraws w)) := now]>
                    (pruned now (now - windowMs rule) (store w)
                       (rate_key (client_ip req) (path req)))).
  { unfold pruned at 1. rewrite zset_at_exec_results by lia.
    apply map_filter_id. intros m s Hm. cbn.
    apply lookup_insert_Some in Hm as [[_ <-]|[_ Hm]].
    - unfold in_range. apply andb_false_iff. right. lia.
    - apply pruned_lookup in Hm as [_ Hm]. exact Hm. }
  rewrite createRateLimiter_cases, Hup, window_count_spec. fold n.
  destruct (Z.leb_spec (maxRequests rule) n); [lia|]. cbn [fst snd].
  rewrite getRateLimitStatus_cases, !Hup. cbn [fst snd store].
  rewrite zset_at_write_same, Hpr, map_size_insert_None by exact Hfresh.
  fold n.
  eexists. split; [reflexivity|]. split; [reflexivity|].
  cbn [st_limit st_current st_remaining]. split; [reflexivity|].
  split; [lia|]. cbn. do 2 f_equal. lia.
Qed.

Lemma status_agrees_with_remaining_header_witness :
  exists report,
    (createRateLimiter quiet rule_auth_login login_request t0 fresh_world).1
    = inr (Next (passed_headers rule_auth_login t0 0)) /\
    (getRateLimitStatus quiet rule_auth_login t0 (client_ip login_request)
       (path login_request)
       (createRateLimiter quiet rule_auth_login login_request t0
          fresh_world).2).1
    = inr (Some report) /\
    st_limit report = 5 /\
    st_current report = 0 + 1 /\
    header "X-RateLimit-Remaining" (passed_headers rule_auth_login t0 0)
    = Some (JNum (st_remaining report)).
Proof.
  apply (status_agrees_with_remaining_header quiet rule_auth_login
           login_request t0 fresh_world).
  - intros n. reflexivity.
  - reflexivity.
  - reflexivity.
  - vm_compute. reflexivity.
Defined.


(** ** The breaker registry *)

Lemma forallb_map_values {A : Type} (p : A -> bool) (m : gmap string A) :
  forallb p (map snd (map_to_list m)) = true <->
  map_Forall (fun _ x => p x = true) m.
Proof.
  rewrite List.forallb_forall. split.
  - intros H k x Hk. apply H, List.in_map_iff. exists (k, x).
    split; [reflexivity|]. apply list_elem_of_In, elem_of_map_to_list, Hk.
  - intros H x Hx. apply List.in_map_iff in Hx as ([k y] & <- & Hin).
    apply list_elem_of_In, elem_of_map_to_list in Hin. exact (H k y Hin).
Qed.

(** X13: one breaker per service, created on first use.  The first call for
    a service registers a breaker and changes no other entry; every later
    call for that service returns the registered breaker and leaves the
    registry as it is, whatever URL it is given. *)
Theorem breaker_is_created_once (stats stats' : jsval)
  (serviceName url url' : string) (reg : gmap string service_breaker) :
  inherited serviceName = false ->
  let first := getServiceCircuitBreaker stats serviceName url reg in
  first.2 !! serviceName = Some first.1 /\
  (forall other, other <> serviceName -> first.2 !! other = reg !! other) /\
  getServiceCircuitBreaker stats' serviceName url' first.2 = first.
Proof.
  intros _ first. subst first. unfold getServiceCircuitBreaker.
  destruct (reg !! serviceName) as [b|] eqn:Hreg; cbn [fst snd].
  - rewrite Hreg. repeat split; auto.
  - rewrite lookup_insert_eq. repeat split; auto.
    intros other Hne. apply lookup_insert_ne. congruence.
Qed.

Lemma breaker_is_created_once_witness :
  let first := getServiceCircuitBreaker JUndefined "auth" "http://auth:3001" ∅ in
  first.2 !! "auth" = Some first.1 /\
  (forall other, other <> "auth" ->
     first.2 !! other = (∅ : gmap string service_breaker) !! other) /\
  getServiceCircuitBreaker JUndefined "auth" "http://elsewhere:9000" first.2
  = first.
Proof.
  apply (breaker_is_created_once JUndefined JUndefined "auth"
           "http://auth:3001" "http://elsewhere:9000" ∅).
  reflexivity.
Defined.

(** X14: the options a service's breaker is created with.  The timeout is
    5 s for auth, 30 s for media and 10 s for any other service; the error
    threshold is 50 % for auth, post and comment, 60 % for media and 30 %
    for any other; the reset timeout is 20 s for auth, 45 s for media and
    30 s for any other; the volume threshold is always 1 and the rolling
    window always 10 s in 10 buckets.  A new breaker is closed and calls the
    URL it was created with. *)
Theorem new_breaker_options (stats : jsval) (serviceName url : string)
  (reg : gmap string service_breaker) :
  inherited serviceName = false ->
  reg !! serviceName = None ->
  let b := (getServiceCircuitBreaker stats serviceName url reg).1 in
  let o := sb_options b in
  opt_timeout o
  = (if String.eqb serviceName "auth" then 5000
     else if String.eqb serviceName "media" then 30000 else 10000) /\
  opt_errorThresholdPercentage o
  = (if String.eqb serviceName "media" then 60
     else if String.eqb serviceName "auth" || String.eqb serviceName "post"
             || String.eqb serviceName "comment" then 50 else 30) /\
  opt_resetTimeout o
  = (if String.eqb serviceName "auth" then 20000
     else if String.eqb serviceName "media" then 45000 else 30000) /\
  opt_volumeThreshold o = 1 /\
  opt_rollingCountTimeout o = 10000 /\
  opt_rollingCountBuckets o = 10 /\
  opt_name o = serviceName +:+ "-breaker" /\
  sb_state b = mkBreaker false false /\
  sb_baseURL b = url /\
  sb_service b = serviceName.
Proof.
  intros Hinh Hreg b o. subst o b. unfold getServiceCircuitBreaker.
  rewrite Hreg. cbn [fst sb_options sb_state sb_baseURL sb_service].
  unfold service_options. cbn -[String.eqb String.append inherited].
  destruct (String.eqb_spec serviceName "auth") as [->|Hauth];
    [cbn; repeat split; reflexivity|].
  destruct (String.eqb_spec serviceName "post") as [->|Hpost];
    [cbn; repeat split; reflexivity|].
  destruct (String.eqb_spec serviceName "comment") as [->|Hcomment];
    [cbn; repeat split; reflexivity|].
  destruct (String.eqb_spec serviceName "media") as [->|Hmedia];
    [cbn; repeat split; reflexivity|].
  rewrite Hinh. cbn. repeat split; reflexivity.
Qed.

Lemma new_breaker_options_witness :
  let b := (getServiceCircuitBreaker JUndefined "media" "http://media:3003" ∅).1 in
  let o := sb_options b in
  opt_timeout o = 30000 /\
  opt_errorThresholdPercentage o = 60 /\
  opt_resetTimeout o = 45000 /\
  opt_volumeThreshold o = 1 /\
  opt_rollingCountTimeout o = 10000 /\
  opt_rollingCountBuckets o = 10 /\
  opt_name o = "media" +:+ "-breaker" /\
  sb_state b = mkBreaker false false /\
  sb_baseURL b = "http://media:3003" /\
  sb_service b = "media".
Proof.
  apply (new_breaker_options JUndefined "media" "http://media:3003" ∅);
    reflexivity.
Defined.

(** X15: the admin reset of a service's breaker.  For a service that has no
    breaker the endpoint answers 404, or 500 when the name is that of a
    member of [Object.prototype] (the reset then throws), and the registry
    is unchanged (nothing is created); for a registered service it answers
    200, the breaker is closed with its options and URL kept, every other
    breaker is untouched, and the guarded proxy hands the next request to
    the upstream again. *)
Theorem admin_reset_outcome (service : string)
  (reg : gmap string service_breaker) (req : request) (headersSent : bool)
  (now : Z) :
  isWebSocket req = false ->
  let r := admin_reset service reg in
  (reg !! service = None ->
   r.1.1 = (if inherited service then 500 else 404) /\ r.2 = reg) /\
  (forall b, reg !! service = Some b ->
     r.1.1 = 200 /\
     r.2 !! service = Some (close b) /\
     sb_options (close b) = sb_options b /\
     sb_baseURL (close b) = sb_baseURL b /\
     createCircuitBreakerProxy service (sb_state (close b)) req headersSent now
     = [CallProxy service true]) /\
  (forall other, other <> service -> r.2 !! other = reg !! other).
Proof.
  intros Hws r. subst r. unfold admin_reset, resetCircuitBreaker.
  destruct (reg !! service) as [b|] eqn:Hreg; cbn [fst snd].
  - split; [intros H; discriminate H|]. split.
    + intros b' Hb'. assert (b' = b) as -> by congruence.
      rewrite lookup_insert_eq. repeat split; try reflexivity.
      unfold createCircuitBreakerProxy. rewrite Hws. reflexivity.
    + intros other Hne. apply lookup_insert_ne. congruence.
  - destruct (inherited service); cbn [fst snd];
      (split; [auto|]); (split; [intros b Hb; discriminate Hb|]); auto.
Qed.

Lemma admin_reset_outcome_witness :
  (admin_reset "notification"
     (registry_at_startup JUndefined "http://auth" "http://media"
        "http://comment" "http://post")).1.1 = 404 /\
  (admin_reset "constructor"
     (registry_at_startup JUndefined "http://auth" "http://media"
        "http://comment" "http://post")).1.1 = 500 /\
  (admin_reset "auth"
     (registry_at_startup JUndefined "http://auth" "http://media"
        "http://comment" "http://post")).1.1 = 200.
Proof.
  pose proof (admin_reset_outcome "notification"
                (registry_at_startup JUndefined "http://auth" "http://media"
                   "http://comment" "http://post")
                login_request false t0 eq_refl) as [Hnone _].
  pose proof (admin_reset_outcome "constructor"
                (registry_at_startup JUndefined "http://auth" "http://media"
                   "http://comment" "http://post")
                login_request false t0 eq_refl) as [Hproto _].
  pose proof (admin_reset_outcome "auth"
                (registry_at_startup JUndefined "http://auth" "http://media"
                   "http://comment" "http://post")
                login_request false t0 eq_refl) as [_ [Hsome _]].
  split; [|split].
  - apply Hnone. vm_compute. reflexivity.
  - apply Hproto. vm_compute. reflexivity.
  - eapply Hsome. vm_compute. reflexivity.
Defined.

(** X16: the breaker health endpoint answers 200 exactly when no registered
    breaker is open, and 503 otherwise; its [success] flag says the same.  A
    half-open breaker counts as healthy, and so does an empty registry. *)
Theorem health_reflects_open_breakers (reg : gmap string service_breaker) :
  let r := health_circuit_breakers reg in
  (r.1.1 = 200 <->
   forall name b, reg !! name = Some b -> opened (sb_state b) = false) /\
  (r.1.1 = 200 \/ r.1.1 = 503) /\
  r.1.2 = bool_decide (r.1.1 = 200) /\
  (forall name, bs_state <$> (r.2 !! name)
                = (fun b => state_name (sb_state b)) <$> (reg !! name)).
Proof.
  intros r. subst r. unfold health_circuit_breakers. cbn [fst snd].
  set (statuses := getAllCircuitBreakerStatuses reg).
  assert (Hall : forallb bs_healthy (map snd (map_to_list statuses)) = true <->
                 forall name b, reg !! name = Some b ->
                                opened (sb_state b) = false).
  { rewrite forallb_map_values. subst statuses.
    unfold getAllCircuitBreakerStatuses. split.
    - intros H name b Hb.
      specialize (H name (mkBreakerStatus (state_name (sb_state b))
                            (negb (opened (sb_state b))) (sb_stats b))).
      rewrite lookup_fmap, Hb in H. cbn in H.
      apply negb_true_iff, H. reflexivity.
    - intros H name s Hs. rewrite lookup_fmap in Hs.
      destruct (reg !! name) as [b|] eqn:Hb; [|discriminate Hs].
      cbn in Hs. injection Hs as <-. cbn. rewrite (H name b Hb). reflexivity. }
  destruct (forallb bs_healthy (map snd (map_to_list statuses))) eqn:Hf.
  - split; [split; [intros _; apply Hall; reflexivity|reflexivity]|].
    split; [left; reflexivity|]. split; [reflexivity|].
    intros name. subst statuses. unfold getAllCircuitBreakerStatuses.
    rewrite lookup_fmap. destruct (reg !! name); reflexivity.
  - split; [split; [intros H; discriminate H|]|].
    + intros H. apply Hall in H. discriminate H.
    + split; [right; reflexivity|]. split; [reflexivity|].
      intros name. subst statuses. unfold getAllCircuitBreakerStatuses.
      rewrite lookup_fmap. destruct (reg !! name); reflexivity.
Qed.

(** X17: the breakers the gateway starts with.  Once [index.js] has built
    its proxies the registry holds a breaker for auth, media, comment and
    post and for no other service (the notification service has none);
    each is closed, guards its own URL, trips at an error rate of at least
    50 %, and needs a single call to judge. *)
Theorem breakers_at_startup (stats : jsval)
  (auth_url media_url comment_url post_url name : string) :
  let reg := registry_at_startup stats auth_url media_url comment_url post_url in
  (is_Some (reg !! name) <-> name ∈ ["auth"; "media"; "comment"; "post"]) /\
  (forall b, reg !! name = Some b ->
     sb_service b = name /\
     sb_state b = mkBreaker false false /\
     50 <= opt_errorThresholdPercentage (sb_options b) /\
     opt_volumeThreshold (sb_options b) = 1 /\
     sb_baseURL b
     = (if String.eqb name "auth" then auth_url
        else if String.eqb name "media" then media_url
        else if String.eqb name "comment" then comment_url else post_url)).
Proof.
  intros reg. subst reg. unfold registry_at_startup, getServiceCircuitBreaker.
  rewrite lookup_empty. cbn [snd].
  rewrite (lookup_insert_ne _ "auth" "media") by discriminate.
  rewrite lookup_empty. cbn [snd].
  rewrite (lookup_insert_ne _ "media" "comment") by discriminate.
  rewrite (lookup_insert_ne _ "auth" "comment") by discriminate.
  rewrite lookup_empty. cbn [snd].
  rewrite (lookup_insert_ne _ "comment" "post") by discriminate.
  rewrite (lookup_insert_ne _ "media" "post") by discriminate.
  rewrite (lookup_insert_ne _ "auth" "post") by discriminate.
  rewrite lookup_empty. cbn [snd].
  rewrite !elem_of_cons, elem_of_nil.
  destruct (String.eqb_spec name "post") as [->|Hpost].
  { rewrite lookup_insert_eq. split; [split; eauto 6|].
    intros b Hb. injection Hb as <-. cbn. repeat split; lia. }
  rewrite lookup_insert_ne by congruence.
  destruct (String.eqb_spec name "comment") as [->|Hcomment].
  { rewrite lookup_insert_eq. split; [split; eauto 6|].
    intros b Hb. injection Hb as <-. cbn. repeat split; lia. }
  rewrite lookup_insert_ne by congruence.
  destruct (String.eqb_spec name "media") as [->|Hmedia].
  { rewrite lookup_insert_eq. split; [split; eauto 6|].
    intros b Hb. injection Hb as <-. cbn. repeat split; lia. }
  rewrite lookup_insert_ne by congruence.
  destruct (String.eqb_spec name "auth") as [->|Hauth].
  { rewrite lookup_insert_eq. split; [split; eauto 6|].
    intros b Hb. injection Hb as <-. cbn. repeat split; lia. }
  rewrite lookup_insert_ne by congruence. rewrite lookup_empty.
  split; [|intros b Hb; discriminate Hb].
  split; [intros [b Hb]; discriminate Hb|].
  intros [H|[H|[H|[H|[]]]]]; congruence.
Qed.


(** ** The guarded proxy, continued *)

(** X18: what the wrapper decides.  It does exactly one thing: it hands the
    request to the proxy when the request is a WebSocket upgrade (whatever
    the breaker says) or the breaker is not open, it answers 503 when the
    breaker is open and nothing was sent yet, and it does nothing when the
    breaker is open and the headers are out.  It never does two things. *)
Theorem wrapper_decision (serviceName : string) (b : breaker) (req : request)
  (headersSent : bool) (now : Z) :
  let es := createCircuitBreakerProxy serviceName b req headersSent now in
  (length es <= 1)%nat /\
  (isWebSocket req = true -> es = [CallProxy serviceName false]) /\
  ((exists hooked, In (CallProxy serviceName hooked) es) <->
   isWebSocket req = true \/ opened b = false) /\
  ((exists status payload, In (Send status payload) es) <->
   isWebSocket req = false /\ opened b = true /\ headersSent = false).
Proof.
  intros es. subst es. unfold createCircuitBreakerProxy.
  destruct (isWebSocket req), (opened b), headersSent; cbn;
    (split; [lia|]); naive_solver.
Qed.

(** X19: what the merged [onError] does when the caller supplied no handler
    of its own (as in every use in [index.js]).  It fires the breaker's probe
    exactly when the breaker is not open; it answers at most once, with 503
    and the fallback payload if the breaker reads open, else with 502 and an
    error code that defaults to PROXY_ERROR; it answers nothing when the
    headers are already sent. *)
Theorem onError_default_response (serviceName : string) (b b' : breaker)
  (code : option string) (headersSent : bool) (now : Z) :
  let es := onError serviceName b b' code headersSent false now in
  (In Probe es <-> opened b = false) /\
  ~ In Original es /\
  (headersSent = true -> forall s p, ~ In (Respond s p) es) /\
  (headersSent = false ->
   exists payload,
     (forall s p, In (Respond s p) es <->
                  s = (if opened b' then 503 else 502) /\ p = payload) /\
     (opened b' = true -> payload = createFallbackResponse serviceName now) /\
     (opened b' = false ->
      get_prop payload "success" = JBool false /\
      get_prop payload "error"
      = JStr (if str_truthy code then interpolate code else "PROXY_ERROR"))).
Proof.
  intros es. subst es. unfold onError.
  destruct (opened b), (opened b'), headersSent; cbn; naive_solver.
Qed.


(** X20: which responses the breaker hears about.  A response whose status
    is not 2xx is never probed, by the proxy's [onProxyRes] or by the
    wrapper's [res.end]: these hooks tell the breaker nothing about an
    upstream that answers 500.  A
    2xx response is probed by both hooks while the breaker is half-open, and
    where it is not, only when the hook's own random sample says so. *)
Theorem only_successes_are_sampled (b : breaker) (statusCode : Z)
  (sampled sampled' : bool) (custom : bool) :
  let in_2xx := (200 <=? statusCode) && (statusCode <? 300) in
  (In Probe (onProxyRes b statusCode sampled custom) <->
   in_2xx = true /\ (halfOpen b = true \/ sampled = true)) /\
  (In Probe (end_hook b false statusCode sampled').1 <->
   in_2xx = true /\ (halfOpen b = true \/ sampled' = true)) /\
  (In Original (onProxyRes b statusCode sampled custom) <-> custom = true).
Proof.
  intros in_2xx. subst in_2xx. unfold onProxyRes, end_hook, tracks.
  destruct ((200 <=? statusCode) && (statusCode <? 300)), (halfOpen b),
    sampled, sampled', custom; cbn; naive_solver.
Qed.

(** X21: the wrapper's [res.end] samples a response at most once: after the
    first call the flag is set, and no later call fires a probe, whatever
    the breaker, the status or the sample then are. *)
Theorem end_hook_samples_once (b b' : breaker) (handled : bool)
  (statusCode statusCode' : Z) (sampled sampled' : bool) :
  let first := end_hook b handled statusCode sampled in
  let second := end_hook b' first.2 statusCode' sampled' in
  first.2 = true /\ second.1 = [] /\ second.2 = true.
Proof.
  intros first second. subst second first. unfold end_hook.
  destruct handled; cbn; repeat split; reflexivity.
Qed.

(** X22: an open breaker blocks both stages of the guarded proxy.  The
    wrapper does not hand a plain request to the proxy, and should the
    breaker open only after the wrapper let the request through, the merged
    [onProxyReq] destroys the outgoing request first and never runs the
    caller's hook, so neither identity headers nor a body are written to the
    upstream; at most one 503 is sent. *)
Theorem open_breaker_blocks_both_stages (serviceName : string) (b : breaker)
  (req : request) (headersSent custom : bool) (now : Z) :
  isWebSocket req = false ->
  opened b = true ->
  (forall hooked,
     ~ In (CallProxy serviceName hooked)
         (createCircuitBreakerProxy serviceName b req headersSent now)) /\
  hd_error (onProxyReq serviceName b headersSent custom now)
  = Some DestroyProxyReq /\
  ~ In Original (onProxyReq serviceName b headersSent custom now) /\
  (forall s p, In (Respond s p) (onProxyReq serviceName b headersSent custom now)
               -> s = 503 /\ p = createFallbackResponse serviceName now /\
                  headersSent = false).
Proof.
  intros Hws Hopen. unfold createCircuitBreakerProxy, onProxyReq.
  rewrite Hws, Hopen. destruct headersSent; cbn; naive_solver.
Qed.

Lemma open_breaker_blocks_both_stages_witness :
  hd_error (onProxyReq "comment" (mkBreaker true false) false true t0)
  = Some DestroyProxyReq.
Proof.
  apply (open_breaker_blocks_both_stages "comment" (mkBreaker true false)
           (graphql_request None "query { getComments(postId: 1) { success } }"
              None) false true t0); reflexivity.
Defined.

(** A breaker that is not open lets the caller's hook run and nothing else. *)
Lemma onProxyReq_passes (serviceName : string) (b : breaker)
  (headersSent custom : bool) (now : Z) :
  opened b = false ->
  onProxyReq serviceName b headersSent custom now
  = if custom then [Original] else [].
Proof. intros H. unfold onProxyReq. rewrite H. reflexivity. Qed.

(** ** GraphQL dispatch, continued *)

(** X23: where a request on the GraphQL route can end up, when its body
    carries [query] and [operationName] as strings, if at all.  With a
    response that has not been started, the last handler forwards the
    request to the comment or to the post service, or answers 503 with the
    fallback payload of the service it chose; it never leaves the request
    unanswered and never reaches another upstream.  A request with the
    header [Upgrade: websocket] is forwarded to the comment service whatever
    the breakers say; otherwise the outcome depends on the breaker of the
    chosen service only. *)
Theorem graphql_handler_outcomes (comment post comment' post' : breaker)
  (req : request) (now : Z) :
  let r := graphql_handler comment post req false now in
  (r = Forwarded CommentService \/
   r = Forwarded PostService \/
   r = Answered 503 (createFallbackResponse "comment" now) \/
   r = Answered 503 (createFallbackResponse "post" now)) /\
  (isWebSocket req = true -> r = Forwarded CommentService) /\
  (graphql_route req = commentGraphQLWsProxy ->
   graphql_handler comment' post' req false now = r) /\
  (graphql_route req = commentGraphQLHttpProxy ->
   opened comment' = opened comment ->
   graphql_handler comment' post' req false now = r) /\
  (graphql_route req = postGraphQLHttpProxy ->
   opened post' = opened post ->
   graphql_handler comment' post' req false now = r).
Proof.
  intros r. subst r. unfold graphql_handler, createCircuitBreakerProxy.
  destruct (graphql_route req) eqn:Hroute.
  - split; [auto|]. repeat split; intros; first [reflexivity|discriminate].
  - assert (Hws : isWebSocket req = false).
    { unfold graphql_route in Hroute. destruct (isWebSocket req);
        [discriminate Hroute|reflexivity]. }
    rewrite Hws. split; [destruct (opened comment); cbn; auto 6|].
    repeat split; intros; try discriminate.
    match goal with H : opened comment' = _ |- _ => rewrite H end. reflexivity.
  - assert (Hws : isWebSocket req = false).
    { unfold graphql_route in Hroute. destruct (isWebSocket req);
        [discriminate Hroute|reflexivity]. }
    rewrite Hws. split; [destruct (opened post); cbn; auto 6|].
    repeat split; intros; try discriminate.
    match goal with H : opened post' = _ |- _ => rewrite H end. reflexivity.
Qed.

(** A request without a body, or with an empty one, goes to the post
    service. *)
Lemma graphql_empty_body_goes_to_post (req : request) :
  isWebSocket req = false ->
  body_query req = "" ->
  body_operationName req = "" ->
  graphql_route req = postGraphQLHttpProxy.
Proof.
  intros Hws Hq Hop. unfold graphql_route, looks_like_comment.
  rewrite Hws, Hq, Hop. reflexivity.
Qed.


(** ** Authentication and identity headers *)

Lemma prefix_append (pat s : string) : String.prefix pat (pat +:+ s) = true.
Proof.
  induction pat as [|c pat IH]; [destruct s; reflexivity|].
  rewrite append_cons. cbn -[ascii_dec].
  destruct (ascii_dec c c) as [_|Hne]; [exact IH|contradiction].
Qed.

Lemma string_drop_append (pat s : string) :
  string_drop (String.length pat) (pat +:+ s) = s.
Proof.
  induction pat as [|c pat IH]; [reflexivity|].
  rewrite append_cons. exact IH.
Qed.

Lemma remove_first_prefix (pat s : string) : remove_first pat (pat +:+ s) = s.
Proof.
  assert (H : forall t, String.prefix pat t = true ->
                        remove_first pat t = string_drop (String.length pat) t).
  { intros t Ht. destruct t; cbn -[String.prefix]; rewrite Ht; reflexivity. }
  rewrite H by apply prefix_append. apply string_drop_append.
Qed.

(** X24: who passes [authenticateToken].  A request goes on exactly when it
    carries a non-empty token that verifies, and then [req.user] is the
    verified payload; without a token (no cookie and no Authorization
    header, or empty ones) it is denied with 401, and with a token that does
    not verify with 403.  A non-empty cookie wins over the header. *)
Theorem authenticateToken_outcomes (verifyToken : string -> option jsval)
  (c : credentials) :
  (str_truthy (request_token c) = false <->
   exists payload, authenticateToken verifyToken c = Denied 401 payload) /\
  (forall user,
     authenticateToken verifyToken c = Authenticated user <->
     exists token, request_token c = Some token /\ token <> "" /\
                   verifyToken token = Some user /\ truthy user = true) /\
  (forall status payload,
     authenticateToken verifyToken c = Denied status payload ->
     status = 401 \/ status = 403) /\
  (forall other,
     str_truthy (cookie_access_token c) = true ->
     authenticateToken verifyToken
       (mkCredentials (cookie_access_token c) other)
     = authenticateToken verifyToken c).
Proof.
  unfold authenticateToken. split; [split|split; [|split]].
  - intros ->. eexists. reflexivity.
  - intros [payload H]. destruct (str_truthy (request_token c)); [|reflexivity].
    cbn in H. destruct (verifyToken _) as [u|]; [destruct (truthy u)|];
      discriminate H.
  - intros user. split.
    + destruct (request_token c) as [token|] eqn:Ht; cbn;
        [|intros H; discriminate H].
      destruct (String.eqb_spec token "") as [->|Hne]; cbn;
        [intros H; discriminate H|].
      destruct (verifyToken token) as [u|] eqn:Hv;
        [destruct (truthy u) eqn:Hu|]; intros H; try discriminate H.
      assert (u = user) as <- by congruence. exists token. auto.
    + intros (token & Ht & Hne & Hv & Hu). rewrite Ht. cbn.
      destruct (String.eqb_spec token "") as [->|_]; [contradiction|]. cbn.
      rewrite Hv, Hu. reflexivity.
  - intros status payload.
    destruct (str_truthy (request_token c)); cbn;
      [destruct (verifyToken _) as [u|]; [destruct (truthy u)|]|];
      intros H; try discriminate H;
      assert (Hs : status = 401 \/ status = 403)
        by (first [left; congruence | right; congruence]); exact Hs.
  - intros other Hc. unfold request_token. cbn. rewrite Hc. reflexivity.
Qed.

(** X25: the token of a request.  An Authorization header [Bearer t] with
    no cookie authenticates like the cookie [t] does, for every non-empty
    token [t]; a header that holds nothing but the scheme is a missing
    token. *)
Theorem bearer_header_equals_cookie (verifyToken : string -> option jsval)
  (token : string) (other : option string) :
  token <> "" ->
  request_token (mkCredentials None (Some ("Bearer " +:+ token))) = Some token /\
  authenticateToken verifyToken
    (mkCredentials None (Some ("Bearer " +:+ token)))
  = authenticateToken verifyToken (mkCredentials (Some token) other) /\
  (exists payload,
     authenticateToken verifyToken (mkCredentials None (Some "Bearer "))
     = Denied 401 payload).
Proof.
  intros Hne.
  assert (Hheader : request_token (mkCredentials None (Some ("Bearer " +:+ token)))
                    = Some token).
  { unfold request_token. cbn [str_truthy cookie_access_token authorization
                                 option_map].
    rewrite remove_first_prefix. reflexivity. }
  assert (Hcookie : request_token (mkCredentials (Some token) other) = Some token).
  { unfold request_token. cbn [str_truthy cookie_access_token].
    destruct (String.eqb_spec token "") as [->|_]; [contradiction|]. reflexivity. }
  split; [exact Hheader|]. split.
  - unfold authenticateToken. rewrite Hheader, Hcookie. reflexivity.
  - eexists. reflexivity.
Qed.

Lemma bearer_header_equals_cookie_witness :
  request_token (mkCredentials None (Some ("Bearer " +:+ "abc.def.ghi")))
  = Some "abc.def.ghi".
Proof.
  apply (bearer_header_equals_cookie (fun _ => None) "abc.def.ghi" None).
  discriminate.
Defined.

(** The scheme is removed wherever it first occurs, not only in front. *)
Example bearer_removed_anywhere :
  request_token (mkCredentials None (Some "tokBearer en")) = Some "token".
Proof. reflexivity. Qed.

(** X26: the identity the upstream is told.  For a request that passed
    [authenticateToken], the user is the payload the request's own token
    verified to, and [forwardUserHeaders] sets [X-User-Id] and
    [X-User-Email] to its [userId] and [email] when [setHeader] accepts
    both.  [setHeader] refuses [undefined]: for a payload without [userId]
    the first call throws and no header is set; for one with [userId] and
    without [email] the second call throws once [X-User-Id] is set.  For a
    request without a user (the public routes) no header is set. *)
Theorem identity_headers_come_from_the_token
  (verifyToken : string -> option jsval) (accepts : jsval -> bool)
  (c : credentials) (user : jsval) :
  accepts JUndefined = false ->
  authenticateToken verifyToken c = Authenticated user ->
  verifyToken (interpolate (request_token c)) = Some user /\
  forwardUserHeaders accepts (Some user)
  = (if accepts (get_prop user "userId")
     then if accepts (get_prop user "email")
          then ([("X-User-Id", get_prop user "userId");
                 ("X-User-Email", get_prop user "email")], false)
          else ([("X-User-Id", get_prop user "userId")], true)
     else ([], true)) /\
  (get_prop user "userId" = JUndefined ->
   forwardUserHeaders accepts (Some user) = ([], true)) /\
  (accepts (get_prop user "userId") = true ->
   get_prop user "email" = JUndefined ->
   forwardUserHeaders accepts (Some user)
   = ([("X-User-Id", get_prop user "userId")], true)) /\
  forwardUserHeaders accepts None = ([], false).
Proof.
  intros Hundef. unfold authenticateToken.
  destruct (str_truthy (request_token c)); cbn [negb];
    [|intros H; discriminate H].
  destruct (verifyToken _) as [u|] eqn:Hv; [destruct (truthy u) eqn:Hu|];
    intros H; try discriminate H.
  assert (u = user) as -> by congruence. clear H.
  assert (Hset : forwardUserHeaders accepts (Some user)
                 = (if accepts (get_prop user "userId")
                    then if accepts (get_prop user "email")
                         then ([("X-User-Id", get_prop user "userId");
                                ("X-User-Email", get_prop user "email")], false)
                         else ([("X-User-Id", get_prop user "userId")], true)
                    else ([], true))).
  { unfold forwardUserHeaders. rewrite Hu. cbn [setHeaders fst snd].
    destruct (accepts (get_prop user "userId")); [|reflexivity].
    destruct (accepts (get_prop user "email")); reflexivity. }
  split; [reflexivity|]. split; [exact Hset|]. split; [|split; [|reflexivity]].
  - intros Hid. rewrite Hset, Hid, Hundef. reflexivity.
  - intros Hid Hemail. rewrite Hset, Hid, Hemail, Hundef. reflexivity.
Qed.

Lemma identity_headers_come_from_the_token_witness :
  forwardUserHeaders accepts_defined
    (Some (JObj [("userId", JNum 42); ("email", JStr "u42@example.com")]))
  = ([("X-User-Id", JNum 42); ("X-User-Email", JStr "u42@example.com")], false).
Proof.
  apply (identity_headers_come_from_the_token verify_42 accepts_defined
           (mkCredentials (Some "valid-token") None)
           (JObj [("userId", JNum 42); ("email", JStr "u42@example.com")]));
    reflexivity.
Defined.

(** A token whose payload has no [email]: the identity header is set, the
    second [setHeader] throws. *)
Example payload_without_email :
  forwardUserHeaders accepts_defined (Some (JObj [("userId", JNum 42)]))
  = ([("X-User-Id", JNum 42)], true).
Proof. reflexivity. Qed.

(** ** Path rewriting, reconnection and logging *)

(** X27: the rewrite of the notification proxy replaces the mount prefix
    [/notifications/socket.io] by [/socket.io] and keeps the rest, leaves
    every other path alone, and rewriting twice is rewriting once. *)
Theorem notification_pathRewrite_spec (rest path : string) :
  notification_pathRewrite ("/notifications/socket.io" +:+ rest)
  = "/socket.io" +:+ rest /\
  (String.prefix "/notifications/socket.io" path = false ->
   notification_pathRewrite path = path) /\
  notification_pathRewrite (notification_pathRewrite path)
  = notification_pathRewrite path.
Proof.
  assert (Hrw : forall r, notification_pathRewrite
                            ("/notifications/socket.io" +:+ r)
                          = "/socket.io" +:+ r).
  { intros r. unfold notification_pathRewrite.
    rewrite prefix_append, string_drop_append. reflexivity. }
  assert (Hkeep : forall p, String.prefix "/notifications/socket.io" p = false ->
                            notification_pathRewrite p = p).
  { intros p Hp. unfold notification_pathRewrite. rewrite Hp. reflexivity. }
  split; [apply Hrw|]. split; [apply Hkeep|].
  destruct (String.prefix "/notifications/socket.io" path) eqn:Hp.
  - apply Hkeep. unfold notification_pathRewrite. rewrite Hp. reflexivity.
  - rewrite (Hkeep path Hp). apply Hkeep, Hp.
Qed.

(** X28: the reconnection delay of the Redis client grows by 50 ms per
    attempt and is capped at 2 s: from the first attempt on it lies between
    50 and 2000 ms, never decreases, and is 2000 ms from the 40th attempt
    on.  It is always a number, so the client never gives up. *)
Theorem retryStrategy_bounds (times times' : Z) :
  1 <= times ->
  50 <= retryStrategy times <= 2000 /\
  (retryStrategy times = 2000 <-> 40 <= times) /\
  (times < 40 -> retryStrategy times = times * 50) /\
  (times <= times' -> retryStrategy times <= retryStrategy times').
Proof. intros H. unfold retryStrategy. lia. Qed.

Lemma retryStrategy_bounds_witness :
  50 <= retryStrategy 3 <= 2000 /\
  (retryStrategy 3 = 2000 <-> 40 <= 3) /\
  (3 < 40 -> retryStrategy 3 = 3 * 50) /\
  (3 <= 100 -> retryStrategy 3 <= retryStrategy 100).
Proof. apply (retryStrategy_bounds 3 100). lia. Defined.

(** X29: what the logger prints.  Whatever [LOG_LEVEL] says, errors and
    warnings are printed; debug messages are printed only for
    [LOG_LEVEL=debug]; info messages are printed unless [LOG_LEVEL=warn].
    In particular [LOG_LEVEL=error] silences nothing that the default does
    not: level 0 is falsy and falls back to info. *)
Theorem logger_levels (LOG_LEVEL : option string) :
  inherited (interpolate LOG_LEVEL) = false ->
  logs LOG_LEVEL "error" = true /\
  logs LOG_LEVEL "warn" = true /\
  (logs LOG_LEVEL "info" = false <-> LOG_LEVEL = Some "warn") /\
  (logs LOG_LEVEL "debug" = true <-> LOG_LEVEL = Some "debug") /\
  currentLevel (Some "error") = currentLevel None.
Proof.
  intros Hinh. unfold logs, currentLevel.
  destruct LOG_LEVEL as [s|]; cbn [interpolate] in *;
    [|cbn; repeat split; intros H; discriminate H].
  unfold levels. rewrite !get_prop_obj. cbn -[String.eqb inherited].
  destruct (String.eqb_spec s "error") as [->|Herror];
    [cbn; repeat split; intros H; discriminate H|].
  destruct (String.eqb_spec s "warn") as [->|Hwarn];
    [cbn; repeat split; intros H; first [reflexivity|discriminate H]|].
  destruct (String.eqb_spec s "info") as [->|Hinfo];
    [cbn; repeat split; intros H; discriminate H|].
  destruct (String.eqb_spec s "debug") as [->|Hdebug];
    [cbn; repeat split; intros H; first [reflexivity|discriminate H]|].
  rewrite Hinh. cbn. repeat split; intros H; first [discriminate H|congruence].
Qed.

Lemma logger_levels_witness :
  logs (Some "error") "error" = true /\
  logs (Some "error") "warn" = true /\
  (logs (Some "error") "info" = false <-> Some "error" = Some "warn") /\
  (logs (Some "error") "debug" = true <-> Some "error" = Some "debug") /\
  currentLevel (Some "error") = currentLevel None.
Proof. apply (logger_levels (Some "error")). reflexivity. Defined.
